(** * Dispatch and middleware composition of the [invoke] package

    A shallow embedding of [src/invoke/handler.go], [src/invoke/middleware.go]
    and [src/invoke/router.go], together with the response helpers
    [Success] and [Error] and the appender stages of the package's tests.

    Go function values become Gallina functions.  What a stage can change
    (the Router's [Context] map, objects reached through pointers, the
    package logger) is gathered in a [World] that every call threads
    explicitly; a Go run-time panic is an [Outcome] of its own. *)

From Stdlib Require Import ZArith Lia Ascii String.
From stdpp Require Import gmap strings list fin_maps pretty.

Local Open Scope string_scope.

(** ** The protobuf response, [pb.Response] *)

Module pb.

Record Response : Type := mkResponse
  { Status : Z;
    Message : string;
    Payload : option (list Byte.byte) }.

End pb.

(** [Success] of the helper file: the given status and payload, no message. *)
Definition Success (status : Z) (payload : option (list Byte.byte)) : pb.Response :=
  {| pb.Status := status; pb.Message := EmptyString; pb.Payload := payload |}.

(** [Error] of the helper file: the given status and message, a nil payload. *)
Definition Error (status : Z) (message : string) : pb.Response :=
  {| pb.Status := status; pb.Message := message; pb.Payload := None |}.

(** The one-character string holding a double quote (ASCII 34), which Go
    literals write with a backslash. *)
Definition dquote : string := String "034"%char EmptyString.

(** [net/http] status constants used by the package. *)
Definition StatusBadRequest : Z := 400.
Definition StatusInternalServerError : Z := 500.

(** ** What the package takes from the Go libraries

    [encoding/json], [reflect] and [time] are not part of the repository.
    The embedding is parametric in them: [reflect_Zero t] is the value a
    pointer made by [reflect.New t] points to, [json_Unmarshal b v] is the
    pointee after decoding [b] into a pointee holding [v], with the error
    if decoding failed, and [time_Parse layout s] is [time.Parse]. *)

Class GoRuntime : Type := mkGoRuntime
  { Obj : Type;
    Time : Type;
    reflect_Type : Type;
    reflect_Zero : reflect_Type -> Obj;
    json_Unmarshal : string -> Obj -> Obj * option string;
    time_Parse : string -> string -> Time + string;
    time_Unix : Z -> Z -> Time }.

(** The result of calling a Go function that returns a [pb.Response]: it
    returns, or it panics and the panic unwinds through its callers. *)
Inductive Outcome : Type :=
| Returned (rsp : pb.Response)
| Panicked (reason : string).

(** The call as the shim hands it over: [GetFunctionAndParameters] and
    [GetTxTimestamp] are the only methods of [shim.ChaincodeStubInterface]
    the package calls on a stub. *)
Record Stub : Type := mkStub
  { GetFunctionAndParameters : string * list string;
    GetTxTimestamp : (Z * Z) + string }.

Section Model.

Context {rt : GoRuntime}.

(** Values kept in the context map ([interface{}] in the source): the
    [[]int] of the tests, a [time.Time] stored by value, and a pointer to
    an object of the heap, as [reflect.New] returns. *)
Inductive Value : Type :=
| VIntSlice (xs : list Z)
| VTime (t : Time)
| VPointer (p : nat).

(** The mutable state reachable from a stage.  [Context] is the content of
    the Router's [Context] map: a Go map is a reference, so every copy of
    the Router struct (the middleware constructors take the Router by
    value) reads and writes this one map.  [Heap] holds the objects
    allocated by [reflect.New], addressed by position.  [Log] is what the
    package [Logger] was asked to write. *)
Record World : Type := mkWorld { Context : gmap string Value; Heap : list Obj; Log : list string }.

Definition set_Context (c : gmap string Value) (w : World) : World :=
  {| Context := c; Heap := Heap w; Log := Log w |}.

Definition set_Heap (h : list Obj) (w : World) : World :=
  {| Context := Context w; Heap := h; Log := Log w |}.

(** [Logger.Error(msg)] *)
Definition Logger_Error (msg : string) (w : World) : World :=
  {| Context := Context w; Heap := Heap w; Log := Log w ++ [msg] |}.

(** [type Handler func(shim.ChaincodeStubInterface, []string) pb.Response] *)
Definition Handler : Type := Stub -> list string -> World -> Outcome * World.

(** [type Middleware func(shim.ChaincodeStubInterface, []string, Handler) pb.Response] *)
Definition Middleware : Type := Stub -> list string -> Handler -> World -> Outcome * World.

(** Calling a nil function value. *)
Definition nilHandler : Handler :=
  fun _ _ w => (Panicked "invalid memory address or nil pointer dereference", w).

(** ** [Handler.use]

    The loop of the source, [for i := len(m) - 1; i >= 0; i--]: [use_loop m n h]
    runs the iterations [i = n-1, ..., 0] on the handler built so far.  Each
    iteration copies [m[i]] and [h] and rebinds [h] to the closure calling
    the copied middleware with the copied handler as its "next". *)
Fixpoint use_loop (m : list Middleware) (n : nat) (h : Handler) : Handler :=
  match n with
  | O => h
  | S i =>
      match m !! i with
      | Some tmpMW =>
          let tmpH := h in
          use_loop m i (fun stub args => tmpMW stub args tmpH)
      | None => nilHandler (* not reached: i < len(m) throughout the loop *)
      end
  end.

Definition use (h : Handler) (m : list Middleware) : Handler :=
  use_loop m (length m) h.

(** ** Middleware of [middleware.go] *)

(** The [for i, arg := range expected] loop of [ArgCounter]: [i] is the index
    of the head of [rest], [n] is [len(expected)], [res] is the buffer. *)
Fixpoint write_expected (n : nat) (i : nat) (rest : list string) (res : string) : string :=
  match rest with
  | [] => res
  | arg :: rest' =>
      let res := res +:+ arg in
      let res := if (Z.of_nat i <? Z.of_nat n - 1)%Z then res +:+ ", " else res in
      write_expected n (S i) rest' res
  end.

(** The text [ArgCounter] builds in its buffer when the count is wrong. *)
Definition ArgCounter_message (expected : list string) : string :=
  let res := "incorrect number of arguments, expected " +:+ pretty (length expected) in
  if (0 <? Z.of_nat (length expected))%Z
  then write_expected (length expected) 0 expected (res +:+ ": ")
  else res.

Definition ArgCounter (expected : list string) : Middleware :=
  fun stub args next w =>
    if negb (length args =? length expected)%nat then
      let err := ArgCounter_message expected in
      let w := Logger_Error err w in
      (Returned (Error StatusBadRequest err), w)
    else next stub args w.

(** [args[argIndex]] for a Go [int] index: [None] is the run-time panic
    "index out of range". *)
Definition index_args (args : list string) (argIndex : Z) : option string :=
  if (argIndex <? 0)%Z then None else args !! Z.to_nat argIndex.

(** The guard both parsers start with, [argIndex >= len(args)]. *)
Definition index_guard (argIndex : Z) (args : list string) : bool :=
  (argIndex >=? Z.of_nat (length args))%Z.

(** [reflect.New(valueType).Interface()]: a pointer to a fresh zero value. *)
Definition reflect_New (valueType : reflect_Type) (w : World) : nat * World :=
  (length (Heap w), set_Heap (Heap w ++ [reflect_Zero valueType]) w).

(** [json.Unmarshal(b, ptr)]: decodes into the object [ptr] points to. *)
Definition Unmarshal (b : string) (ptr : nat) (w : World) : option string * World :=
  match Heap w !! ptr with
  | Some v =>
      let '(v', err) := json_Unmarshal b v in
      (err, set_Heap (<[ptr := v']> (Heap w)) w)
  | None => (Some "json: Unmarshal(nil)", w)
  end.

(** [JSONParser(router, argIndex, contextKey, valueType)].  The [router]
    argument is only used for its [Context] map, the one of the [World]. *)
Definition JSONParser (argIndex : Z) (contextKey : string) (valueType : reflect_Type)
  : Middleware :=
  fun stub args next w =>
    if index_guard argIndex args then
      let err := "argIndex " +:+ pretty argIndex +:+ " was greater than length of args" in
      let w := Logger_Error err w in
      (Returned (Error StatusInternalServerError ("error unmarshalling json: " +:+ err)), w)
    else
      match index_args args argIndex with
      | None => (Panicked "runtime error: index out of range", w)
      | Some b =>
          let '(jsonValue, w) := reflect_New valueType w in
          match Unmarshal b jsonValue w with
          | (Some err, w) =>
              let w := Logger_Error err w in
              (Returned (Error StatusBadRequest ("error unmarshalling json: " +:+ err)), w)
          | (None, w) =>
              let w := set_Context (<[contextKey := VPointer jsonValue]> (Context w)) w in
              next stub args w
          end
      end.

(** [TimestampParser(router, argIndex, timeFormat, contextKey)] *)
Definition TimestampParser (argIndex : Z) (timeFormat : string) (contextKey : string)
  : Middleware :=
  fun stub args next w =>
    if index_guard argIndex args then
      let err := "argIndex " +:+ pretty argIndex +:+ " was greater than length of args" in
      let w := Logger_Error err w in
      (Returned (Error StatusInternalServerError ("error parsing time: " +:+ err)), w)
    else
      match index_args args argIndex with
      | None => (Panicked "runtime error: index out of range", w)
      | Some a =>
          match time_Parse timeFormat a with
          | inr err =>
              let w := Logger_Error err w in
              (Returned (Error StatusBadRequest ("error parsing time string: " +:+ err)), w)
          | inl ts =>
              let w := set_Context (<[contextKey := VTime ts]> (Context w)) w in
              next stub args w
          end
      end.

(** [TransactionTimestamp(router, contextKey)] *)
Definition TransactionTimestamp (contextKey : string) : Middleware :=
  fun stub args next w =>
    match GetTxTimestamp stub with
    | inr err =>
        let err := "error getting transaction timestamp: " +:+ err in
        let w := Logger_Error err w in
        (Returned (Error StatusInternalServerError err), w)
    | inl (seconds, nanos) =>
        let w := set_Context (<[contextKey := VTime (time_Unix seconds nanos)]> (Context w)) w in
        next stub args w
    end.

(** ** The Router of [router.go]

    [invokeMap] and [middlewareChain] are the two unexported fields; the
    third field, [Context], is the map kept in the [World].  A Router is
    obtained from [NewRouter], so that its maps are allocated. *)
Record Router : Type := mkRouter
  { invokeMap : gmap string Handler;
    middlewareChain : list Middleware }.

Definition NewRouter : Router :=
  {| invokeMap := ∅; middlewareChain := [] |}.

(** The world a fresh Router starts in: [make(map[string]interface{})]. *)
Definition NewWorld : World :=
  {| Context := ∅; Heap := []; Log := [] |}.

(** [func (r *Router) Use(mws ...Middleware)] *)
Definition Use (r : Router) (mws : list Middleware) : Router :=
  {| invokeMap := invokeMap r; middlewareChain := middlewareChain r ++ mws |}.

(** Reading [r.invokeMap[functionName]]: a missing key reads as the nil
    function. *)
Definition invokeMap_read (r : Router) (functionName : string) : Handler :=
  match invokeMap r !! functionName with
  | Some fn => fn
  | None => nilHandler
  end.

(** [func (r *Router) RegisterHandler(functionName, h, mws...) Handler]:
    the handler it returns and the Router it leaves. *)
Definition RegisterHandler (r : Router) (functionName : string) (h : Handler)
    (mws : list Middleware) : Handler * Router :=
  let r := {| invokeMap := <[functionName := use h mws]> (invokeMap r);
              middlewareChain := middlewareChain r |} in
  (invokeMap_read r functionName, r).

(** [func (r *Router) Invoke(stub) pb.Response]: the Router it leaves, and
    the response with the world after the call. *)
Definition Invoke (r : Router) (stub : Stub) (w : World) : Router * (Outcome * World) :=
  let '(function, args) := GetFunctionAndParameters stub in
  match invokeMap r !! function with
  | None =>
      let err := "invalid invoke function " +:+ dquote +:+ function +:+ dquote in
      let w := Logger_Error err w in
      (r, (Returned (Error StatusBadRequest err), w))
  | Some fn =>
      let fn := use fn (middlewareChain r) in
      let result := fn stub args w in
      (r, result)
  end.

(** ** The stages of the package's tests ([handler_test.go]) *)

(** [mwIntAppender(router, contextKey, val)]: the type assertion
    [.([]int)] panics on a missing key or on another kind of value. *)
Definition mwIntAppender (contextKey : string) (val : Z) : Middleware :=
  fun stub args next w =>
    match Context w !! contextKey with
    | Some (VIntSlice arr) =>
        let arr := (arr ++ [val])%list in
        let w := set_Context (<[contextKey := VIntSlice arr]> (Context w)) w in
        next stub args w
    | _ => (Panicked "interface conversion: interface {} is not []int", w)
    end.

(** [hIntAppender(router, contextKey, val)] *)
Definition hIntAppender (contextKey : string) (val : Z) : Handler :=
  fun stub args w =>
    match Context w !! contextKey with
    | Some (VIntSlice arr) =>
        let arr := (arr ++ [val])%list in
        let w := set_Context (<[contextKey := VIntSlice arr]> (Context w)) w in
        (Returned (Success 200 None), w)
    | _ => (Panicked "interface conversion: interface {} is not []int", w)
    end.

(** ** Notions used to state how a chain runs *)

(** Called on [args] in world [w], the stage [mw] does its own work, which
    leaves world [w'], calls "next" there and returns what "next" returns. *)
Definition delegates_at (mw : Middleware) (stub : Stub) (args : list string)
    (w w' : World) : Prop :=
  forall next : Handler, mw stub args next w = next stub args w'.

(** Called on [args] in world [w], the stage [mw] returns [res] whatever
    its "next" is: it does not invoke it. *)
Definition returns_without_next (mw : Middleware) (stub : Stub) (args : list string)
    (w : World) (res : Outcome * World) : Prop :=
  forall next : Handler, mw stub args next w = res.

(** Every stage of the list delegates, one after the other, taking the
    world from [w] to [w']. *)
Inductive all_delegate (stub : Stub) (args : list string)
  : list Middleware -> World -> World -> Prop :=
| all_delegate_nil (w : World) : all_delegate stub args [] w w
| all_delegate_cons (mw : Middleware) (ms : list Middleware) (w w1 w2 : World) :
    delegates_at mw stub args w w1 ->
    all_delegate stub args ms w1 w2 ->
    all_delegate stub args (mw :: ms) w w2.

(** One reverse-order wrapping step of [use], as a function. *)
Definition wrap (h : Handler) (mw : Middleware) : Handler :=
  fun stub args => mw stub args h.

(** A handler that never writes the context map. *)
Definition handler_keeps_Context (h : Handler) : Prop :=
  forall stub args w, Context (snd (h stub args w)) = Context w.

(** A middleware that never writes the context map itself: with a "next"
    that keeps it, the whole stage keeps it. *)
Definition middleware_keeps_Context (mw : Middleware) : Prop :=
  forall next : Handler, handler_keeps_Context next ->
    handler_keeps_Context (fun stub args => mw stub args next).

(** The error text of the argument-count guard as the specification words
    it: the count, a colon, and the expected names separated by commas. *)
Definition spec_ArgCounter_message (expected : list string) : string :=
  "incorrect number of arguments, expected " +:+ pretty (length expected)
    +:+ ": " +:+ String.concat ", " expected.

End Model.

(** ** A small run-time to evaluate the model on

    Objects are booleans: the JSON texts [true] and [false] decode, anything
    else is an error and leaves the pointee as it was.  A time is a pair of
    seconds and nanoseconds; only the layout [unix] is understood, for the
    texts [0] and [1]. *)
Definition bool_Unmarshal (b : string) (v : bool) : bool * option string :=
  if String.eqb b "true" then (true, None)
  else if String.eqb b "false" then (false, None)
  else (v, Some "invalid character").

Definition unix_Parse (layout : string) (s : string) : (Z * Z) + string :=
  if negb (String.eqb layout "unix") then inr "unknown layout"
  else if String.eqb s "0" then inl (0%Z, 0%Z)
  else if String.eqb s "1" then inl (1%Z, 0%Z)
  else inr "cannot parse".

#[export] Instance boolRuntime : GoRuntime :=
  {| Obj := bool;
     Time := Z * Z;
     reflect_Type := unit;
     reflect_Zero := fun _ => false;
     json_Unmarshal := bool_Unmarshal;
     time_Parse := unix_Parse;
     time_Unix := fun seconds nanos => (seconds, nanos) |}.

(** The one decoding target of the boolean run-time. *)
Definition boolType : @reflect_Type boolRuntime := tt.

(** A call of [function] with [params], at transaction time 0. *)
Definition call (function : string) (params : list string) : Stub :=
  {| GetFunctionAndParameters := (function, params);
     GetTxTimestamp := inl (0%Z, 0%Z) |}.

(** The Router and the world of [TestInvoke]: the slot [test] starts as an
    empty [[]int], one global appender, a handler registered with two. *)
Definition testRouter : Router :=
  snd (RegisterHandler (Use NewRouter [mwIntAppender "test" 1]) "endpoint"
         (hIntAppender "test" 4) [mwIntAppender "test" 2; mwIntAppender "test" 3]).

(** The world in which the slot [test] holds the given [[]int]. *)
Definition testSlot (xs : list Z) : World :=
  set_Context (<["test" := VIntSlice xs]> (Context NewWorld)) NewWorld.

Definition testWorld : World := testSlot [].

(** A handler that answers 200 and writes nothing, and a Router that
    guards it with an argument count, globally and for the call. *)
Definition okHandler : Handler :=
  fun _ _ w => (Returned (Success 200 None), w).

Definition pingRouter : Router :=
  snd (RegisterHandler (Use NewRouter [ArgCounter ["a"]]) "ping"
         okHandler [ArgCounter ["a"]]).

(** * The helper functions of the package

    [PutJSON], [GetJSON], [GetQueryResultForQueryString], [GetCreatorCert]
    and [GetCreatorCommonName], from the file that also holds [Success] and
    [Error].  They reach the ledger through the stub and decode with
    [encoding/json], [protobuf], [encoding/pem] and [crypto/x509], none of
    which is part of the repository: the embedding is parametric in them.

    [Ledger] is the state behind the stub.  [stub_GetState] and
    [stub_GetCreator] answer with bytes or with an error; [stub_PutState]
    answers with its error, if any, and the ledger it leaves;
    [stub_GetQueryResult] answers with an error or with an iterator, given
    by what its successive calls of [Next] return while [HasNext] holds.
    [Sprintf_identity] and [Sprintf_block] are the renderings of [fmt] for
    the verb [%#v]. *)

Class Shim {rt : GoRuntime} : Type := mkShim
  { Ledger : Type;
    stub_GetState : string -> Ledger -> string + string;
    stub_PutState : string -> string -> Ledger -> option string * Ledger;
    stub_GetQueryResult : string -> Ledger -> list ((string * string) + string) + string;
    stub_GetCreator : Ledger -> string + string;
    json_Marshal : Obj -> string + string;
    SerializedIdentity : Type;
    IdBytes : SerializedIdentity -> string;
    proto_Unmarshal : string -> SerializedIdentity + string;
    pem_Block : Type;
    Block_Bytes : pem_Block -> string;
    pem_Decode : string -> option pem_Block;
    Certificate : Type;
    CommonName : Certificate -> string;
    x509_ParseCertificate : string -> Certificate + string;
    Sprintf_identity : SerializedIdentity -> string;
    Sprintf_block : option pem_Block -> string }.

(** The result of a Go call that may panic instead of returning. *)
Inductive Call (A : Type) : Type :=
| Done (a : A)
| Panics (reason : string).

Arguments Done {A} a.
Arguments Panics {A} reason.

(** A state-query iterator of the shim: what [Next] has still to deliver,
    and whether [Close] was called. *)
Record Iterator : Type := mkIterator
  { pending : list ((string * string) + string);
    closed : bool }.

(** The one-character string holding a line feed. *)
Definition newline : string := String "010"%char EmptyString.

Section Helpers.

Context {rt : GoRuntime} {sh : Shim}.

(** [Logger.Debugf(...)], with the formatted text. *)
Definition Logger_Debug (msg : string) (w : World) : World :=
  {| Context := Context w; Heap := Heap w; Log := Log w ++ [msg] |}.

(** [PutJSON(stub, key, value)]: the bytes and the error it returns, the
    ledger and the world it leaves. *)
Definition PutJSON (key : string) (value : Obj) (l : Ledger) (w : World)
  : (option string * option string) * Ledger * World :=
  match json_Marshal value with
  | inr err =>
      let w := Logger_Error err w in
      ((None, Some err), l, w)
  | inl b =>
      match stub_PutState key b l with
      | (Some err, l) =>
          let w := Logger_Error err w in
          ((None, Some err), l, w)
      | (None, l) => ((Some b, None), l, w)
      end
  end.

(** [GetJSON(stub, key, valuePtr)]: the error it returns and the world it
    leaves; [valuePtr] is an address of the heap.  The object behind it is
    taken to stand alone: what [json.Unmarshal] writes through maps or
    pointers the object already holds is not followed. *)
Definition GetJSON (key : string) (valuePtr : nat) (l : Ledger) (w : World)
  : option string * World :=
  match stub_GetState key l with
  | inr err =>
      let w := Logger_Error
                 ("error getting state of " +:+ key +:+ " from ledger: " +:+ err) w in
      (Some err, w)
  | inl b =>
      match Unmarshal b valuePtr w with
      | (Some err, w) =>
          let w := Logger_Error
                     ("error deserialising value of " +:+ b +:+ " as json: " +:+ err) w in
          (Some err, w)
      | (None, w) => (None, w)
      end
  end.

(** The loop [for resultsIterator.HasNext()] of
    [GetQueryResultForQueryString]: the buffer when the iterator is
    exhausted, or the error of the first [Next] that fails, and what the
    iterator has still to deliver. *)
Fixpoint query_loop (pending : list ((string * string) + string))
    (bArrayMemberAlreadyWritten : bool) (buffer : string)
  : (string + string) * list ((string * string) + string) :=
  match pending with
  | [] => (inl buffer, [])
  | inr err :: rest => (inr err, rest)
  | inl (Key, Value) :: rest =>
      let buffer := if bArrayMemberAlreadyWritten then buffer +:+ "," else buffer in
      let buffer := buffer +:+ ("{" +:+ dquote +:+ "Key" +:+ dquote +:+ ":") in
      let buffer := buffer +:+ dquote in
      let buffer := buffer +:+ Key in
      let buffer := buffer +:+ dquote in
      let buffer := buffer +:+ (", " +:+ dquote +:+ "Record" +:+ dquote +:+ ":") in
      let buffer := buffer +:+ Value in
      let buffer := buffer +:+ "}" in
      query_loop rest true buffer
  end.

(** [GetQueryResultForQueryString(stub, queryString)]: the bytes and the
    error it returns, the iterator it obtained, if any, in the state the
    deferred [Close] leaves it in, and the world. *)
Definition GetQueryResultForQueryString (queryString : string) (l : Ledger) (w : World)
  : (option string * option string) * option Iterator * World :=
  let w := Logger_Debug ("getQueryResultForQueryString queryString:" +:+ newline
                           +:+ queryString +:+ newline) w in
  match stub_GetQueryResult queryString l with
  | inr err => ((None, Some err), None, w)
  | inl results =>
      let resultsIterator := {| pending := results; closed := false |} in
      let buffer := "[" in
      match query_loop (pending resultsIterator) false buffer with
      | (inr err, rest) =>
          ((None, Some err), Some {| pending := rest; closed := true |}, w)
      | (inl buffer, rest) =>
          let buffer := buffer +:+ "]" in
          let w := Logger_Debug ("- getQueryResultForQueryString queryResult:" +:+ newline
                                   +:+ buffer +:+ newline) w in
          ((Some buffer, None), Some {| pending := rest; closed := true |}, w)
      end
  end.

(** [GetCreatorCert(stub)].  [pem.Decode] returns a nil block when the
    bytes hold no PEM data, and [block.Bytes] then dereferences it. *)
Definition GetCreatorCert (l : Ledger) (w : World)
  : Call (option Certificate * option string) * World :=
  match stub_GetCreator l with
  | inr err => (Done (None, Some err), w)
  | inl creatorBytes =>
      match proto_Unmarshal creatorBytes with
      | inr err => (Done (None, Some err), w)
      | inl id =>
          let w := Logger_Debug ("Creator Identity: " +:+ Sprintf_identity id) w in
          let block := pem_Decode (IdBytes id) in
          let w := Logger_Debug ("Pem: " +:+ Sprintf_block block) w in
          match block with
          | None => (Panics "invalid memory address or nil pointer dereference", w)
          | Some block =>
              match x509_ParseCertificate (Block_Bytes block) with
              | inl cert => (Done (Some cert, None), w)
              | inr err => (Done (None, Some err), w)
              end
          end
      end
  end.

(** [GetCreatorCommonName(stub)] *)
Definition GetCreatorCommonName (l : Ledger) (w : World)
  : Call (string * option string) * World :=
  match GetCreatorCert l w with
  | (Panics reason, w) => (Panics reason, w)
  | (Done (_, Some err), w) => (Done (EmptyString, Some err), w)
  | (Done (Some cert, None), w) => (Done (CommonName cert, None), w)
  | (Done (None, None), w) =>
      (Panics "invalid memory address or nil pointer dereference", w)
  end.

(** One member of the array the query helper writes: the key between
    double quotes, the record as it is. *)
Definition query_record (kv : string * string) : string :=
  ("{" +:+ dquote +:+ "Key" +:+ dquote +:+ ":") +:+ dquote +:+ fst kv +:+ dquote
    +:+ (", " +:+ dquote +:+ "Record" +:+ dquote +:+ ":") +:+ snd kv +:+ "}".

End Helpers.

(** A ledger to evaluate the helpers on: a finite map from keys to bytes.
    A missing key reads as no bytes, the empty key cannot be written, a
    query delivers every entry and fails on an entry without bytes, the
    creator is kept under the key [creator].
    Identities and certificates are their own bytes; a PEM block is what
    follows the prefix [PEM:]. *)
Definition map_PutState (key b : string) (l : gmap string string)
  : option string * gmap string string :=
  if String.eqb key EmptyString then (Some "key must not be an empty string", l)
  else (None, <[key := b]> l).

Definition map_next (kv : string * string) : (string * string) + string :=
  if String.eqb (snd kv) EmptyString then inr "corrupt record" else inl kv.

Definition toy_pem_Decode (s : string) : option string :=
  if String.prefix "PEM:" s then Some (String.substring 4 (String.length s - 4) s)
  else None.

Definition bool_Marshal (v : @Obj boolRuntime) : string + string :=
  inl (if v then "true" else "false").

#[export] Instance mapShim : @Shim boolRuntime :=
  {| Ledger := gmap string string;
     stub_GetState := fun key l => inl (default EmptyString (l !! key));
     stub_PutState := map_PutState;
     stub_GetQueryResult := fun q l =>
       if String.eqb q EmptyString then inr "empty query"
       else inl (map_next <$> map_to_list l);
     stub_GetCreator := fun l =>
       match l !! "creator" with Some c => inl c | None => inr "no creator" end;
     json_Marshal := bool_Marshal;
     SerializedIdentity := string;
     IdBytes := fun id => id;
     proto_Unmarshal := fun b =>
       if String.eqb b EmptyString then inr "proto: empty input" else inl b;
     pem_Block := string;
     Block_Bytes := fun b => b;
     pem_Decode := toy_pem_Decode;
     Certificate := string;
     CommonName := fun c => c;
     x509_ParseCertificate := fun b =>
       if String.eqb b EmptyString then inr "x509: malformed certificate" else inl b;
     Sprintf_identity := fun id => id;
     Sprintf_block := fun b => default "<nil>" b |}.

(** The empty ledger, the ledger holding [true] under [k], and a ledger
    whose creator is not PEM. *)
Definition emptyLedger : @Ledger boolRuntime mapShim := ∅.

Definition trueLedger : @Ledger boolRuntime mapShim := <["k" := "true"]> ∅.

Definition aliceLedger : @Ledger boolRuntime mapShim := <["creator" := "alice"]> ∅.

(** A time of the boolean run-time. *)
Definition unixTime (seconds nanos : Z) : @Time boolRuntime := (seconds, nanos).

(** Two ledgers: one with two records, one where the record read second
    has no bytes. *)
Definition testLedger : @Ledger boolRuntime mapShim :=
  <["a" := "true"]> (<["b" := "false"]> ∅).

Definition brokenLedger : @Ledger boolRuntime mapShim :=
  <["a" := EmptyString]> (<["b" := "false"]> (<["c" := "true"]> ∅)).

(** * The Router as a variable, and stages that reach it

    [invokeMap] and [middlewareChain] are unexported: outside the package
    a value of type [Router] is the zero value, whose maps are nil, or it
    comes from [NewRouter] through [Use] and [RegisterHandler].  The
    assignment [r.invokeMap[functionName] = ...] panics on a nil map. *)

Section RouterVariable.

Context {rt : GoRuntime}.

Inductive RouterVar : Type :=
| ZeroRouter
| MadeRouter (r : Router).

(** The call [r.RegisterHandler(functionName, h, mws...)] on a Router
    variable: the handler it returns and the Router it leaves, or the
    panic of the assignment. *)
Definition RegisterHandler_call (rv : RouterVar) (functionName : string) (h : Handler)
    (mws : list Middleware) : Call (Handler * Router) :=
  match rv with
  | ZeroRouter => Panics "assignment to entry in nil map"
  | MadeRouter r => Done (RegisterHandler r functionName h mws)
  end.

End RouterVariable.

(** The Router is kept in a variable the stages can see (a package-level
    [var router] in the README), so a handler or a middleware can call
    [RegisterHandler] and [Use] while [Invoke] runs it.  To put the Router
    into the state the stages change, function values are named: a value of
    type [Handler] is a function of the program, or the closure [use]
    makes, which holds a middleware and a handler, or nil; a value of type
    [Middleware] is a function of the program. *)

Inductive FuncValue : Type :=
| NilFunc
| NamedFunc (id : nat)
| UseClosure (tmpMW : nat) (tmpH : FuncValue).

(** The two unexported fields of the Router, holding function values. *)
Record RouterCell : Type := mkRouterCell
  { cell_invokeMap : gmap string FuncValue;
    cell_middlewareChain : list nat }.

Section Reach.

Context {rt : GoRuntime}.

(** What a stage can change: the shared store and the Router. *)
Record State : Type := mkState { st_World : World; st_Router : RouterCell }.

Definition set_World (w : World) (st : State) : State :=
  {| st_World := w; st_Router := st_Router st |}.

Definition set_Router (r : RouterCell) (st : State) : State :=
  {| st_World := st_World st; st_Router := r |}.

Definition StateHandler : Type := Stub -> list string -> State -> Outcome * State.

Definition StateMiddleware : Type :=
  Stub -> list string -> StateHandler -> State -> Outcome * State.

(** The functions of the program, by name. *)
Record Program : Type := mkProgram
  { handlerFunc : nat -> StateHandler;
    middlewareFunc : nat -> StateMiddleware }.

(** Calling a function value: a closure of [use] calls its middleware with
    its handler as "next". *)
Fixpoint call_value (p : Program) (fn : FuncValue) : StateHandler :=
  match fn with
  | NilFunc =>
      fun _ _ st => (Panicked "invalid memory address or nil pointer dereference", st)
  | NamedFunc id => handlerFunc p id
  | UseClosure tmpMW tmpH =>
      fun stub args => middlewareFunc p tmpMW stub args (call_value p tmpH)
  end.

(** [Handler.use] on function values: the same loop, each iteration making
    the closure of [m[i]] and the handler built so far. *)
Fixpoint use_value_loop (m : list nat) (n : nat) (h : FuncValue) : FuncValue :=
  match n with
  | O => h
  | S i =>
      match m !! i with
      | Some tmpMW =>
          let tmpH := h in
          use_value_loop m i (UseClosure tmpMW tmpH)
      | None => h (* not reached: i < len(m) throughout the loop *)
      end
  end.

Definition use_value (h : FuncValue) (m : list nat) : FuncValue :=
  use_value_loop m (length m) h.

(** [Router.Use] and [Router.RegisterHandler] on the Router of the state. *)
Definition Use_cell (r : RouterCell) (mws : list nat) : RouterCell :=
  {| cell_invokeMap := cell_invokeMap r;
     cell_middlewareChain := cell_middlewareChain r ++ mws |}.

Definition RegisterHandler_cell (r : RouterCell) (functionName : string) (h : FuncValue)
    (mws : list nat) : FuncValue * RouterCell :=
  let r := {| cell_invokeMap := <[functionName := use_value h mws]> (cell_invokeMap r);
              cell_middlewareChain := cell_middlewareChain r |} in
  (default NilFunc (cell_invokeMap r !! functionName), r).

(** The statements [router.Use(mws...)] and
    [router.RegisterHandler(functionName, h, mws...)] inside a stage. *)
Definition stage_Use (mws : list nat) (st : State) : State :=
  set_Router (Use_cell (st_Router st) mws) st.

Definition stage_RegisterHandler (functionName : string) (h : FuncValue) (mws : list nat)
    (st : State) : State :=
  set_Router (snd (RegisterHandler_cell (st_Router st) functionName h mws)) st.

(** [Router.Invoke] with the Router in the state: the registry and the
    global list are read when the call comes in, the composed handler is
    then run. *)
Definition Invoke_state (p : Program) (stub : Stub) (st : State) : Outcome * State :=
  let r := st_Router st in
  let '(function, args) := GetFunctionAndParameters stub in
  match cell_invokeMap r !! function with
  | None =>
      let err := "invalid invoke function " +:+ dquote +:+ function +:+ dquote in
      let st := set_World (Logger_Error err (st_World st)) st in
      (Returned (Error StatusBadRequest err), st)
  | Some fn =>
      let fn := use_value fn (cell_middlewareChain r) in
      let result := call_value p fn stub args st in
      result
  end.

(** The stages a function value is made of leave [f] of the state as it
    is: its function does, and for a closure of [use] its middleware does
    when its "next" does, and so do the stages of its handler. *)
Fixpoint stages_keep {A : Type} (f : State -> A) (p : Program) (fn : FuncValue) : Prop :=
  match fn with
  | NilFunc => True
  | NamedFunc id =>
      forall stub args st, f (snd (handlerFunc p id stub args st)) = f st
  | UseClosure tmpMW tmpH =>
      (forall next : StateHandler,
          (forall stub args st, f (snd (next stub args st)) = f st) ->
          forall stub args st, f (snd (middlewareFunc p tmpMW stub args next st)) = f st)
      /\ stages_keep f p tmpH
  end.

(** Stages that act on the shared store only are stages of this kind
    that leave the Router alone.  [lift h] is the handler [h] run on the
    store of the state; [denote] reads a function value as a handler on the
    store, given the functions of the program as such handlers and
    middleware; [store_program] says that the program is made of them. *)
Definition lift (h : Handler) : StateHandler :=
  fun stub args st =>
    let '(o, w) := h stub args (st_World st) in (o, set_World w st).

Fixpoint denote (hs : nat -> Handler) (ms : nat -> Middleware) (fn : FuncValue) : Handler :=
  match fn with
  | NilFunc => nilHandler
  | NamedFunc id => hs id
  | UseClosure tmpMW tmpH => fun stub args => ms tmpMW stub args (denote hs ms tmpH)
  end.

Definition store_program (p : Program) (hs : nat -> Handler) (ms : nat -> Middleware)
  : Prop :=
  (forall id stub args st, handlerFunc p id stub args st = lift (hs id) stub args st)
  /\ (forall id (next : Handler) (nextS : StateHandler),
        (forall stub args st, nextS stub args st = lift next stub args st) ->
        forall stub args st,
          middlewareFunc p id stub args nextS st
          = lift (fun stub args => ms id stub args next) stub args st).

(** The Router on the store that a Router of function values stands for. *)
Definition denote_Router (hs : nat -> Handler) (ms : nat -> Middleware) (r : RouterCell)
  : Router :=
  {| invokeMap := denote hs ms <$> cell_invokeMap r;
     middlewareChain := map ms (cell_middlewareChain r) |}.

End Reach.

(** A program to evaluate this on.  Handler 0 registers the name [late]
    and answers 200, every other handler only answers 200; middleware 1
    adds middleware 0 to the global list and goes on, every other
    middleware only goes on. *)
Definition growProgram : @Program boolRuntime :=
  {| handlerFunc := fun id stub args st =>
       match id with
       | O => (Returned (Success 200 None), stage_RegisterHandler "late" (NamedFunc 1) [] st)
       | S _ => (Returned (Success 200 None), st)
       end;
     middlewareFunc := fun id stub args next st =>
       match id with
       | 1 => next stub args (stage_Use [0] st)
       | _ => next stub args st
       end |}.

(** Its Router: [grow] is handler 0, [ok] is handler 1, middleware 0 is
    global; and the same Router with middleware 1 global. *)
Definition growState : @State boolRuntime :=
  {| st_World := NewWorld;
     st_Router := {| cell_invokeMap := <["grow" := NamedFunc 0]> (<["ok" := NamedFunc 1]> ∅);
                     cell_middlewareChain := [0] |} |}.

Definition moreState : @State boolRuntime :=
  {| st_World := NewWorld;
     st_Router := {| cell_invokeMap := <["grow" := NamedFunc 0]> (<["ok" := NamedFunc 1]> ∅);
                     cell_middlewareChain := [1] |} |}.

(** A program whose stages act on the store only: every handler answers
    200, every middleware counts the arguments against the one name [a]. *)
Definition countProgram : @Program boolRuntime :=
  {| handlerFunc := fun id => lift okHandler;
     middlewareFunc := fun id stub args next st =>
       if negb (length args =? 1)%nat then
         let err := ArgCounter_message ["a"] in
         (Returned (Error StatusBadRequest err),
          set_World (Logger_Error err (st_World st)) st)
       else next stub args st |}.

(** * Properties *)

Section Properties.

Context {rt : GoRuntime}.

Implicit Types (h next : Handler) (mw : Middleware) (m ms pre post : list Middleware).
Implicit Types (stub : Stub) (args : list string) (w : World) (r : Router).

(** ** The loop of [use] *)

(** The last iteration of the loop, [i = 0], wraps what the earlier
    iterations built from the tail of the list. *)
Lemma use_loop_cons mw ms i h :
  i <= length ms ->
  use_loop (mw :: ms) (S i) h = wrap (use_loop ms i h) mw.
Proof.
  revert h. induction i as [|i IH]; intros h Hi.
  - reflexivity.
  - destruct (lookup_lt_is_Some_2 ms i) as [tmpMW Hm]; [lia|].
    change (use_loop (mw :: ms) (S (S i)) h)
      with (match @lookup nat Middleware _ _ i ms with
            | Some tmpMW => use_loop (mw :: ms) (S i) (fun stub args => tmpMW stub args h)
            | None => nilHandler
            end).
    change (use_loop ms (S i) h)
      with (match @lookup nat Middleware _ _ i ms with
            | Some tmpMW => use_loop ms i (fun stub args => tmpMW stub args h)
            | None => nilHandler
            end).
    rewrite Hm. apply IH. lia.
Qed.

Lemma use_nil h : use h [] = h.
Proof. reflexivity. Qed.

Lemma use_cons h mw ms : use h (mw :: ms) = wrap (use h ms) mw.
Proof. unfold use. cbn [length]. apply use_loop_cons. lia. Qed.

Lemma use_app h pre post : use h (pre ++ post) = use (use h post) pre.
Proof.
  induction pre as [|mw pre IH]; [reflexivity|].
  cbn [app]. rewrite !use_cons. now rewrite IH.
Qed.

Lemma use_fold_right h m : use h m = fold_right (fun mw acc => wrap acc mw) h m.
Proof.
  induction m as [|mw m IH]; [reflexivity|].
  rewrite use_cons. cbn [fold_right]. now rewrite IH.
Qed.

Lemma use_all_delegate h m stub args w w' :
  all_delegate stub args m w w' -> use h m stub args w = h stub args w'.
Proof.
  induction 1 as [w|mw ms w w1 w2 Hmw _ IH]; [reflexivity|].
  rewrite use_cons. unfold wrap. rewrite Hmw. exact IH.
Qed.

(** ** Composition *)

(** C2.  For every handler [h]: composed with [m0 :: ms], the new handler
    calls [m0] first and hands it, as its "next", the composition of [h]
    with the remaining stages [ms]; the handler that [use] returns is the
    one obtained by wrapping [h] in the middleware taken in reverse order;
    and when every stage of the list delegates, [h] runs last, in the world
    the stages left one after the other in declaration order.  [use] itself
    is a function from handlers to handlers: it takes no world and so runs
    no stage. *)
Theorem use_declaration_order h :
  (forall mw ms, use h (mw :: ms) = fun stub args => mw stub args (use h ms))
  /\ (forall m, use h m = fold_left wrap (rev m) h)
  /\ (forall m stub args w w',
        all_delegate stub args m w w' -> use h m stub args w = h stub args w').
Proof.
  split; [|split].
  - intros mw ms. apply use_cons.
  - intros m. rewrite use_fold_right, <- (rev_involutive m) at 1.
    now rewrite fold_left_rev_right.
  - intros m stub args w w'. apply use_all_delegate.
Qed.

(** C7.  Composing a handler with no middleware gives the handler itself,
    so on every stub, argument list and world it returns the same outcome
    and leaves the same world. *)
Theorem use_empty_identity h :
  use h [] = h /\ (forall stub args w, use h [] stub args w = h stub args w).
Proof. split; [apply use_nil | intros; now rewrite use_nil]. Qed.

(** C3.  In a chain [pre ++ mi :: post] over [h], let the stages before
    [mi] delegate, taking the world from [w] to [w1], and let [mi], called
    in [w1], return [res] without invoking its "next".  Then the chain
    returns [res], the response and world of [mi] itself, whatever the later
    stages [post] and the handler [h] are: none of them runs and none of
    their writes takes place. *)
Theorem short_circuit_stops_chain pre (mi : Middleware) stub args w w1 res :
  all_delegate stub args pre w w1 ->
  returns_without_next mi stub args w1 res ->
  forall post h, use h (pre ++ mi :: post) stub args w = res.
Proof.
  intros Hpre Hmi post h.
  rewrite use_app, (use_all_delegate _ _ _ _ _ _ Hpre), use_cons.
  apply Hmi.
Qed.

(** ** The middleware of the package *)

Lemma string_app_assoc (s1 s2 s3 : string) : (s1 +:+ s2) +:+ s3 = s1 +:+ s2 +:+ s3.
Proof.
  induction s1 as [|c s1 IH]; [reflexivity|].
  change (String c ((s1 +:+ s2) +:+ s3) = String c (s1 +:+ s2 +:+ s3)).
  now rewrite IH.
Qed.

Lemma string_app_empty_r (s : string) : s +:+ EmptyString = s.
Proof.
  induction s as [|c s IH]; [reflexivity|].
  change (String c (s +:+ EmptyString) = String c s). now rewrite IH.
Qed.

(** The loop writes the names that are left, with a comma and a space
    between two of them and nothing after the last. *)
Lemma write_expected_concat n i rest res :
  n = i + length rest ->
  write_expected n i rest res = res +:+ String.concat ", " rest.
Proof.
  revert i res. induction rest as [|arg rest IH]; intros i res Hn.
  - cbn [write_expected String.concat]. now rewrite string_app_empty_r.
  - cbn [write_expected]. destruct rest as [|arg' rest].
    + cbn [length] in Hn.
      replace (Z.of_nat i <? Z.of_nat n - 1)%Z with false
        by (symmetry; apply Z.ltb_ge; lia).
      reflexivity.
    + cbn [length] in Hn.
      replace (Z.of_nat i <? Z.of_nat n - 1)%Z with true
        by (symmetry; apply Z.ltb_lt; lia).
      rewrite (IH (S i)) by (cbn [length]; lia).
      change (String.concat ", " (arg :: arg' :: rest))
        with (arg +:+ ", " +:+ String.concat ", " (arg' :: rest)).
      now rewrite !string_app_assoc.
Qed.

Lemma ArgCounter_message_cons arg rest :
  ArgCounter_message (arg :: rest) = spec_ArgCounter_message (arg :: rest).
Proof.
  unfold ArgCounter_message, spec_ArgCounter_message.
  replace (0 <? Z.of_nat (length (arg :: rest)))%Z with true
    by (symmetry; apply Z.ltb_lt; cbn [length]; lia).
  rewrite write_expected_concat by reflexivity.
  now rewrite !string_app_assoc.
Qed.

(** C5, as the code has it.  When the number of arguments differs from the
    number of expected names, the guard returns, without invoking "next",
    the 400 error whose message is the text of the specification for a
    non-empty list of names (the count, a colon, the names in order
    separated by commas, no comma at the end) and the text ending at the
    count, [expected 0], for the empty list; the message is logged and
    nothing else changes.  When the numbers agree, the guard calls "next"
    on the same arguments in the same world and returns what it returns. *)
Theorem ArgCounter_guard expected stub args w :
  (length args <> length expected ->
   let msg := match expected with
              | [] => "incorrect number of arguments, expected 0"
              | _ :: _ => spec_ArgCounter_message expected
              end in
   returns_without_next (ArgCounter expected) stub args w
     (Returned (Error 400 msg), Logger_Error msg w))
  /\ (length args = length expected ->
      delegates_at (ArgCounter expected) stub args w w).
Proof.
  split.
  - intros Hne msg next. unfold ArgCounter.
    destruct (Nat.eqb_spec (length args) (length expected)) as [Heq|_]; [contradiction|].
    cbn [negb]. subst msg. destruct expected as [|arg rest].
    + reflexivity.
    + now rewrite ArgCounter_message_cons.
  - intros Heq next. unfold ArgCounter.
    now rewrite (proj2 (Nat.eqb_eq _ _) Heq).
Qed.

(** ** The two parsers *)

Lemma index_guard_true argIndex args :
  index_guard argIndex args = true <-> (Z.of_nat (length args) <= argIndex)%Z.
Proof. unfold index_guard. apply Z.geb_le. Qed.

Lemma index_guard_false argIndex args :
  index_guard argIndex args = false <-> (argIndex < Z.of_nat (length args))%Z.
Proof.
  unfold index_guard. rewrite Z.geb_leb. apply Z.leb_gt.
Qed.

Lemma index_args_nonneg args argIndex :
  (0 <= argIndex)%Z -> index_args args argIndex = args !! Z.to_nat argIndex.
Proof.
  intros H. unfold index_args.
  now replace (argIndex <? 0)%Z with false by (symmetry; apply Z.ltb_ge; lia).
Qed.

Lemma index_args_negative args argIndex :
  (argIndex < 0)%Z -> index_args args argIndex = None.
Proof.
  intros H. unfold index_args.
  now replace (argIndex <? 0)%Z with true by (symmetry; apply Z.ltb_lt; lia).
Qed.

(** Decoding into the pointer [reflect.New] has just returned. *)
Lemma Unmarshal_fresh b valueType w :
  Unmarshal b (fst (reflect_New valueType w)) (snd (reflect_New valueType w))
  = (snd (json_Unmarshal b (reflect_Zero valueType)),
     set_Heap (Heap w ++ [fst (json_Unmarshal b (reflect_Zero valueType))]) w).
Proof.
  unfold Unmarshal, reflect_New. cbn [fst snd set_Heap Heap].
  rewrite list_lookup_middle by reflexivity.
  destruct (json_Unmarshal b (reflect_Zero valueType)) as [v' err].
  cbn [fst snd]. unfold set_Heap. cbn [Context Heap Log].
  replace (length (Heap w)) with (length (Heap w) + 0) at 1 by lia.
  now rewrite insert_app_r.
Qed.

Lemma JSONParser_in_range argIndex contextKey valueType stub args next w a :
  (0 <= argIndex)%Z ->
  args !! Z.to_nat argIndex = Some a ->
  JSONParser argIndex contextKey valueType stub args next w
  = let w1 := set_Heap (Heap w ++ [fst (json_Unmarshal a (reflect_Zero valueType))]) w in
    match snd (json_Unmarshal a (reflect_Zero valueType)) with
    | Some err =>
        (Returned (Error StatusBadRequest ("error unmarshalling json: " +:+ err)),
         Logger_Error err w1)
    | None =>
        next stub args
          (set_Context (<[contextKey := VPointer (length (Heap w))]> (Context w1)) w1)
    end.
Proof.
  intros Hnn Ha. unfold JSONParser.
  assert (Hlt : (argIndex < Z.of_nat (length args))%Z).
  { apply lookup_lt_Some in Ha. lia. }
  rewrite (proj2 (index_guard_false _ _) Hlt), index_args_nonneg, Ha by assumption.
  pose proof (Unmarshal_fresh a valueType w) as HU.
  unfold reflect_New in HU |- *. cbn [fst snd] in HU. rewrite HU.
  now destruct (snd (json_Unmarshal a (reflect_Zero valueType))).
Qed.


(** C9.  The guard of the two parsers compares the index with the length
    only.  For an index that is not negative, a guard that lets the call
    through means that [args[argIndex]] exists.  For a negative index and a
    non-empty argument list the guard lets the call through as well, the
    access [args[argIndex]] is out of range, and both parsers end in the
    run-time panic instead of an error response. *)
Theorem index_guard_bounds argIndex args :
  ((0 <= argIndex)%Z ->
   index_guard argIndex args = false ->
   is_Some (index_args args argIndex))
  /\ ((argIndex < 0)%Z ->
      args <> [] ->
      index_guard argIndex args = false
      /\ index_args args argIndex = None
      /\ (forall contextKey valueType stub next w,
            JSONParser argIndex contextKey valueType stub args next w
            = (Panicked "runtime error: index out of range", w))
      /\ (forall timeFormat contextKey stub next w,
            TimestampParser argIndex timeFormat contextKey stub args next w
            = (Panicked "runtime error: index out of range", w))).
Proof.
  split.
  - intros Hnn Hguard. apply index_guard_false in Hguard.
    rewrite index_args_nonneg by assumption.
    apply lookup_lt_is_Some_2. lia.
  - intros Hneg _.
    assert (Hguard : index_guard argIndex args = false)
      by (apply index_guard_false; lia).
    assert (Hidx : index_args args argIndex = None)
      by now apply index_args_negative.
    repeat split; try assumption.
    + intros. unfold JSONParser. now rewrite Hguard, Hidx.
    + intros. unfold TimestampParser. now rewrite Hguard, Hidx.
Qed.

(** ** The Router *)

Lemma Invoke_not_found r stub w :
  invokeMap r !! fst (GetFunctionAndParameters stub) = None ->
  Invoke r stub w
  = let err := "invalid invoke function " +:+ dquote
                 +:+ fst (GetFunctionAndParameters stub) +:+ dquote in
    (r, (Returned (Error StatusBadRequest err), Logger_Error err w)).
Proof.
  unfold Invoke. destruct (GetFunctionAndParameters stub) as [function args].
  cbn [fst]. now intros ->.
Qed.

Lemma Invoke_found r stub w fn :
  invokeMap r !! fst (GetFunctionAndParameters stub) = Some fn ->
  Invoke r stub w
  = (r, use fn (middlewareChain r) stub (snd (GetFunctionAndParameters stub)) w).
Proof.
  unfold Invoke. destruct (GetFunctionAndParameters stub) as [function args].
  cbn [fst snd]. now intros ->.
Qed.

Lemma use_keeps_Context h ms :
  handler_keeps_Context h ->
  Forall middleware_keeps_Context ms ->
  handler_keeps_Context (use h ms).
Proof.
  intros Hh Hms. induction Hms as [|mw ms Hmw _ IH]; [exact Hh|].
  rewrite use_cons. exact (Hmw _ IH).
Qed.

(** C1.  Let the registry map the called name to [h] composed with the
    call-specific middleware [m1; m2], and let the global list be [g1].
    Dispatching the call runs [g1] with, as its "next", the handler that
    runs [m1] with, as its "next", the handler that runs [m2] with [h] as
    its "next": the global middleware is wrapped around the handler found in
    the registry.  So when the three stages delegate, the world goes
    through [g1], [m1], [m2] in that order and [h] runs last. *)
Theorem Invoke_stage_order r (name : string) h (m1 m2 g1 : Middleware) stub args w :
  GetFunctionAndParameters stub = (name, args) ->
  invokeMap r !! name = Some (use h [m1; m2]) ->
  middlewareChain r = [g1] ->
  snd (Invoke r stub w)
  = g1 stub args (fun stub args => m1 stub args (fun stub args => m2 stub args h)) w
  /\ (forall w1 w2 w3,
        delegates_at g1 stub args w w1 ->
        delegates_at m1 stub args w1 w2 ->
        delegates_at m2 stub args w2 w3 ->
        snd (Invoke r stub w) = h stub args w3).
Proof.
  intros Hcall Hreg Hchain.
  assert (Hrun : snd (Invoke r stub w) = use (use h [m1; m2]) [g1] stub args w).
  { rewrite (Invoke_found r stub w (use h [m1; m2])), Hchain, Hcall by now rewrite Hcall.
    reflexivity. }
  split.
  - rewrite Hrun. reflexivity.
  - intros w1 w2 w3 Hg1 Hm1 Hm2. rewrite Hrun, <- use_app.
    apply use_all_delegate.
    repeat (econstructor; [eassumption|]). constructor.
Qed.

(** C4.  When the called name is not a key of the registry, dispatch returns
    the 400 error whose message is [invalid invoke function] followed by the
    name between double quotes, and the world is the one before the call
    with that message logged: the outcome does not depend on any handler or
    middleware of the Router, none runs.  When the name is a key, dispatch
    returns what the composed handler returns, so the dispatcher makes up a
    response of its own in the first case only. *)
Theorem Invoke_unregistered r stub w function args :
  GetFunctionAndParameters stub = (function, args) ->
  (invokeMap r !! function = None ->
   let err := "invalid invoke function " +:+ dquote +:+ function +:+ dquote in
   snd (Invoke r stub w) = (Returned (Error 400 err), Logger_Error err w))
  /\ (forall fn, invokeMap r !! function = Some fn ->
        snd (Invoke r stub w) = use fn (middlewareChain r) stub args w).
Proof.
  intros Hcall. split.
  - intros Hnone err. rewrite Invoke_not_found by now rewrite Hcall.
    now rewrite Hcall.
  - intros fn Hsome. rewrite (Invoke_found r stub w fn) by now rewrite Hcall.
    now rewrite Hcall.
Qed.

(** C8.  On a Router made by [NewRouter] the call of [RegisterHandler]
    returns, for every name, handler and middleware list: it has no failing
    path but the assignment to a nil map.  The registry it leaves is the
    old one with the name bound to the middleware wrapped around [h] in
    listed order, the first one outermost, whatever the name was bound to
    before; the handler returned is that composition, the one now stored,
    so that it runs [h] last, in the world the middleware leave one after
    the other when they delegate; the other names and the global list are
    as before; and the registry has one entry more when the name was new
    and as many as before when it was not. *)
Theorem RegisterHandler_stores r functionName h mws :
  let composed : Handler :=
    fold_right (fun (mw : Middleware) (next : Handler) =>
                  (fun stub args => mw stub args next) : Handler) h mws in
  let h' := fst (RegisterHandler r functionName h mws) in
  let r' := snd (RegisterHandler r functionName h mws) in
  RegisterHandler_call (MadeRouter r) functionName h mws = Done (h', r')
  /\ invokeMap r' = <[functionName := composed]> (invokeMap r)
  /\ h' = composed
  /\ invokeMap r' !! functionName = Some composed
  /\ (forall stub args w w',
        all_delegate stub args mws w w' -> h' stub args w = h stub args w')
  /\ (forall other, other <> functionName -> invokeMap r' !! other = invokeMap r !! other)
  /\ middlewareChain r' = middlewareChain r
  /\ (invokeMap r !! functionName = None -> size (invokeMap r') = S (size (invokeMap r)))
  /\ (is_Some (invokeMap r !! functionName) -> size (invokeMap r') = size (invokeMap r)).
Proof.
  intros composed h' r'.
  assert (Huse : use h mws = composed) by apply use_fold_right.
  assert (Hmap : invokeMap r' = <[functionName := composed]> (invokeMap r)).
  { subst r'. unfold RegisterHandler. cbn [snd invokeMap]. now rewrite Huse. }
  assert (Hh' : h' = composed).
  { subst h'. unfold RegisterHandler, invokeMap_read. cbn [fst invokeMap].
    now rewrite lookup_insert_eq. }
  split; [reflexivity|]. split; [exact Hmap|]. split; [exact Hh'|].
  split; [rewrite Hmap; apply lookup_insert_eq|].
  split; [intros stub args w w' Hall; rewrite Hh', <- Huse; now apply use_all_delegate|].
  split; [intros other Hne; rewrite Hmap; now apply lookup_insert_ne|].
  split; [reflexivity|].
  split.
  - intros Hnew. rewrite Hmap. now apply map_size_insert_None.
  - intros Hold. rewrite Hmap. now apply map_size_insert_Some.
Qed.

(** For stages that act on the shared store only: when neither the
    registered handlers nor the global middleware write the context map,
    dispatch leaves it as it was. *)
Lemma Invoke_keeps_Context r stub w :
  (forall name fn, invokeMap r !! name = Some fn -> handler_keeps_Context fn) ->
  Forall middleware_keeps_Context (middlewareChain r) ->
  Context (snd (snd (Invoke r stub w))) = Context w.
Proof.
  intros Hh Hms.
  destruct (invokeMap r !! fst (GetFunctionAndParameters stub)) as [fn|] eqn:Hreg.
  - rewrite (Invoke_found r stub w fn Hreg). cbn [snd].
    apply (use_keeps_Context fn (middlewareChain r)); eauto.
  - now rewrite (Invoke_not_found r stub w Hreg).
Qed.

Lemma ArgCounter_keeps_Context expected : middleware_keeps_Context (ArgCounter expected).
Proof.
  intros next Hnext stub args w. unfold ArgCounter.
  destruct (negb (length args =? length expected)%nat); [reflexivity | apply Hnext].
Qed.

(** ** The remaining operations, as the package's tests exercise them *)

(** [TestSuccess] and [TestError]: the constructors fill the status and one
    of payload and message, and leave the other empty. *)
Lemma Success_fields status payload :
  pb.Status (Success status payload) = status
  /\ pb.Payload (Success status payload) = payload
  /\ pb.Message (Success status payload) = EmptyString.
Proof. now repeat split. Qed.

Lemma Error_fields status message :
  pb.Status (Error status message) = status
  /\ pb.Payload (Error status message) = None
  /\ pb.Message (Error status message) = message.
Proof. now repeat split. Qed.

(** [TestNewRouter] and [TestRouterUse]. *)
Lemma NewRouter_empty :
  size (invokeMap NewRouter) = 0 /\ length (middlewareChain NewRouter) = 0
  /\ size (Context NewWorld) = 0.
Proof. now repeat split. Qed.

Lemma Use_appends r mws :
  middlewareChain (Use r mws) = (middlewareChain r ++ mws)%list
  /\ length (middlewareChain (Use r mws)) = length (middlewareChain r) + length mws
  /\ invokeMap (Use r mws) = invokeMap r.
Proof.
  unfold Use. cbn [middlewareChain invokeMap].
  split; [reflexivity|]. split; [apply length_app | reflexivity].
Qed.

(** X12.  The timestamp parser has the three branches of the
    structured-value parser, with [time.Parse] in the place of the decoder
    and no allocation: a 500 error naming the index when
    [argIndex >= len(args)], a 400 error when the argument at an index
    within bounds does not parse, both without invoking "next" and with
    only the log changed; and on success the time stored by value under
    the context key before "next" is called. *)
Lemma TimestampParser_cases argIndex timeFormat contextKey stub args w :
  (index_guard argIndex args = true ->
   let err := "argIndex " +:+ pretty argIndex +:+ " was greater than length of args" in
   returns_without_next (TimestampParser argIndex timeFormat contextKey) stub args w
     (Returned (Error 500 ("error parsing time: " +:+ err)), Logger_Error err w))
  /\ (forall a err,
        (0 <= argIndex)%Z ->
        args !! Z.to_nat argIndex = Some a ->
        time_Parse timeFormat a = inr err ->
        returns_without_next (TimestampParser argIndex timeFormat contextKey) stub args w
          (Returned (Error 400 ("error parsing time string: " +:+ err)), Logger_Error err w))
  /\ (forall a ts,
        (0 <= argIndex)%Z ->
        args !! Z.to_nat argIndex = Some a ->
        time_Parse timeFormat a = inl ts ->
        delegates_at (TimestampParser argIndex timeFormat contextKey) stub args w
          (set_Context (<[contextKey := VTime ts]> (Context w)) w)).
Proof.
  split; [|split].
  - intros Hguard err next. unfold TimestampParser. now rewrite Hguard.
  - intros a err Hnn Ha Hparse next. unfold TimestampParser.
    assert (Hlt : (argIndex < Z.of_nat (length args))%Z)
      by (apply lookup_lt_Some in Ha; lia).
    rewrite (proj2 (index_guard_false _ _) Hlt), index_args_nonneg, Ha by assumption.
    now rewrite Hparse.
  - intros a ts Hnn Ha Hparse next. unfold TimestampParser.
    assert (Hlt : (argIndex < Z.of_nat (length args))%Z)
      by (apply lookup_lt_Some in Ha; lia).
    rewrite (proj2 (index_guard_false _ _) Hlt), index_args_nonneg, Ha by assumption.
    now rewrite Hparse.
Qed.

(** X13.  The transaction-timestamp extractor answers 500, without
    invoking "next" and with only the log changed, when the stub cannot
    give the timestamp; otherwise it stores [time.Unix] of the seconds and
    nanoseconds under the context key and calls "next". *)
Lemma TransactionTimestamp_cases contextKey stub args w :
  (forall err, GetTxTimestamp stub = inr err ->
     let msg := "error getting transaction timestamp: " +:+ err in
     returns_without_next (TransactionTimestamp contextKey) stub args w
       (Returned (Error 500 msg), Logger_Error msg w))
  /\ (forall seconds nanos, GetTxTimestamp stub = inl (seconds, nanos) ->
        delegates_at (TransactionTimestamp contextKey) stub args w
          (set_Context (<[contextKey := VTime (time_Unix seconds nanos)]> (Context w)) w)).
Proof.
  split.
  - intros err Hts msg next. unfold TransactionTimestamp. now rewrite Hts.
  - intros seconds nanos Hts next. unfold TransactionTimestamp. now rewrite Hts.
Qed.

End Properties.

(** * Dispatch when the stages reach the Router *)

Section ReachProperties.

Context {rt : GoRuntime}.

Implicit Types (p : Program) (fn h : FuncValue) (stub : Stub) (args : list string).
Implicit Types (st : State).

Lemma use_value_loop_cons (mw : nat) (ms : list nat) i h :
  i <= length ms ->
  use_value_loop (mw :: ms) (S i) h = UseClosure mw (use_value_loop ms i h).
Proof.
  revert h. induction i as [|i IH]; intros h Hi; [reflexivity|].
  destruct (lookup_lt_is_Some_2 ms i) as [tmpMW Hm]; [lia|].
  change (use_value_loop (mw :: ms) (S (S i)) h)
    with (match ms !! i with
          | Some tmpMW => use_value_loop (mw :: ms) (S i) (UseClosure tmpMW h)
          | None => h
          end).
  change (use_value_loop ms (S i) h)
    with (match ms !! i with
          | Some tmpMW => use_value_loop ms i (UseClosure tmpMW h)
          | None => h
          end).
  rewrite Hm. apply IH. lia.
Qed.

Lemma use_value_cons h (mw : nat) (ms : list nat) :
  use_value h (mw :: ms) = UseClosure mw (use_value h ms).
Proof. unfold use_value. cbn [length]. apply use_value_loop_cons. lia. Qed.

(** The composed value runs the middleware in listed order around the
    handler, as [use] on functions does. *)
Lemma call_use_value p h (ms : list nat) :
  call_value p (use_value h ms)
  = fold_right (fun (mw : nat) (next : StateHandler) =>
                  (fun stub args => middlewareFunc p mw stub args next) : StateHandler)
      (call_value p h) ms.
Proof.
  induction ms as [|mw ms IH]; [reflexivity|].
  rewrite use_value_cons. cbn [call_value fold_right]. now rewrite IH.
Qed.

(** A function value whose stages keep [f] keeps it when called. *)
Lemma call_value_keeps {A : Type} (f : State -> A) p fn :
  stages_keep f p fn ->
  forall stub args st, f (snd (call_value p fn stub args st)) = f st.
Proof.
  induction fn as [|id|tmpMW tmpH IH]; cbn [stages_keep call_value].
  - reflexivity.
  - auto.
  - intros [Hmw Hh] stub args st. apply Hmw. now apply IH.
Qed.

Lemma Invoke_state_not_found p stub st :
  cell_invokeMap (st_Router st) !! fst (GetFunctionAndParameters stub) = None ->
  Invoke_state p stub st
  = let err := "invalid invoke function " +:+ dquote
                 +:+ fst (GetFunctionAndParameters stub) +:+ dquote in
    (Returned (Error StatusBadRequest err), set_World (Logger_Error err (st_World st)) st).
Proof.
  unfold Invoke_state. destruct (GetFunctionAndParameters stub) as [function args].
  cbn [fst]. now intros ->.
Qed.

Lemma Invoke_state_found p stub st fn :
  cell_invokeMap (st_Router st) !! fst (GetFunctionAndParameters stub) = Some fn ->
  Invoke_state p stub st
  = call_value p (use_value fn (cell_middlewareChain (st_Router st))) stub
      (snd (GetFunctionAndParameters stub)) st.
Proof.
  unfold Invoke_state. destruct (GetFunctionAndParameters stub) as [function args].
  cbn [fst snd]. now intros ->.
Qed.

(** ** Agreement with dispatch on the store

    For a program made of stages that act on the shared store only, a
    function value is called as the handler it stands for, [use] on values
    stands for [use] on handlers, and [Invoke_state] is [Invoke] on the
    Router the state holds, run on the store of the state. *)

Lemma call_value_denote p (hs : nat -> Handler) (ms : nat -> Middleware) :
  store_program p hs ms ->
  forall fn stub args st,
    call_value p fn stub args st = lift (denote hs ms fn) stub args st.
Proof.
  intros [Hh Hm] fn. induction fn as [|id|tmpMW tmpH IH]; intros stub args st.
  - now destruct st.
  - apply Hh.
  - cbn [call_value denote]. now apply Hm.
Qed.

Lemma denote_use_value (hs : nat -> Handler) (ms : nat -> Middleware) fn (mws : list nat) :
  denote hs ms (use_value fn mws) = use (denote hs ms fn) (map ms mws).
Proof.
  induction mws as [|mw mws IH]; [reflexivity|].
  rewrite use_value_cons. cbn [map denote]. rewrite use_cons, IH. reflexivity.
Qed.

Lemma Invoke_state_denote p (hs : nat -> Handler) (ms : nat -> Middleware) stub st :
  store_program p hs ms ->
  Invoke_state p stub st
  = (fst (snd (Invoke (denote_Router hs ms (st_Router st)) stub (st_World st))),
     set_World (snd (snd (Invoke (denote_Router hs ms (st_Router st)) stub (st_World st))))
       st).
Proof.
  intros Hp. unfold Invoke_state, Invoke.
  destruct (GetFunctionAndParameters stub) as [function args].
  cbn [denote_Router invokeMap middlewareChain]. rewrite lookup_fmap.
  destruct (cell_invokeMap (st_Router st) !! function) as [fn|]; cbn [fmap option_fmap option_map];
    [|reflexivity].
  rewrite (call_value_denote p hs ms Hp), denote_use_value. unfold lift. cbn [snd fst].
  now destruct (use (denote hs ms fn) (map ms (cell_middlewareChain (st_Router st)))
                  stub args (st_World st)).
Qed.

(** C10, as the code has it.  [Invoke] itself writes neither the registry
    nor the global middleware list nor the context map.  For a name that is
    not registered all three, and the heap, are after the call what they
    were before.  For a registered name the state after the call is the
    one the composed handler leaves: the registry and the global list are
    as before whenever the stages of that handler leave them alone, and so
    is the context map whenever they do not write it.  A stage that calls
    [RegisterHandler] or [Use] does change them while [Invoke] runs. *)
Theorem Invoke_state_frame p stub st :
  (cell_invokeMap (st_Router st) !! fst (GetFunctionAndParameters stub) = None ->
   st_Router (snd (Invoke_state p stub st)) = st_Router st
   /\ Context (st_World (snd (Invoke_state p stub st))) = Context (st_World st)
   /\ Heap (st_World (snd (Invoke_state p stub st))) = Heap (st_World st))
  /\ (forall fn,
        cell_invokeMap (st_Router st) !! fst (GetFunctionAndParameters stub) = Some fn ->
        let composed := use_value fn (cell_middlewareChain (st_Router st)) in
        Invoke_state p stub st
        = call_value p composed stub (snd (GetFunctionAndParameters stub)) st
        /\ (stages_keep st_Router p composed ->
            st_Router (snd (Invoke_state p stub st)) = st_Router st)
        /\ (stages_keep (fun st => Context (st_World st)) p composed ->
            Context (st_World (snd (Invoke_state p stub st))) = Context (st_World st))).
Proof.
  split.
  - intros Hnone. rewrite (Invoke_state_not_found p stub st Hnone). now cbn.
  - intros fn Hfn composed. rewrite (Invoke_state_found p stub st fn Hfn).
    split; [reflexivity|]. split; intros Hkeep.
    + now apply (call_value_keeps st_Router).
    + now apply (call_value_keeps (fun st => Context (st_World st))).
Qed.

End ReachProperties.

(** * The model at work

    The statements above evaluated on the Router of the package's tests and
    on the boolean run-time. *)

(** [TestHandlerUse]: two appenders and the handler leave [1; 2; 3]. *)
Lemma use_declaration_order_witness :
  all_delegate (call "f" []) [] [mwIntAppender "test" 1; mwIntAppender "test" 2]
    testWorld (testSlot [1; 2]%Z)
  /\ use (hIntAppender "test" 3) [mwIntAppender "test" 1; mwIntAppender "test" 2]
       (call "f" []) [] testWorld
     = (Returned (Success 200 None), testSlot [1; 2; 3]%Z).
Proof.
  assert (Hall : all_delegate (call "f" []) []
                   [mwIntAppender "test" 1; mwIntAppender "test" 2]
                   testWorld (testSlot [1; 2]%Z)).
  { apply (all_delegate_cons _ _ _ _ _ (testSlot [1]%Z)); [intros next; reflexivity|].
    apply (all_delegate_cons _ _ _ _ _ (testSlot [1; 2]%Z)); [intros next; reflexivity|].
    constructor. }
  split; [exact Hall|].
  rewrite (proj2 (proj2 (use_declaration_order (hIntAppender "test" 3))) _ _ _ _ _ Hall).
  reflexivity.
Defined.

(** [TestInvoke] on the registered name: the global appender, the two
    appenders of the call and the handler leave [1; 2; 3; 4]. *)
Lemma Invoke_stage_order_witness :
  GetFunctionAndParameters (call "endpoint" []) = ("endpoint", [])
  /\ invokeMap testRouter !! "endpoint"
     = Some (use (hIntAppender "test" 4) [mwIntAppender "test" 2; mwIntAppender "test" 3])
  /\ middlewareChain testRouter = [mwIntAppender "test" 1]
  /\ snd (Invoke testRouter (call "endpoint" []) testWorld)
     = (Returned (Success 200 None), testSlot [1; 2; 3; 4]%Z).
Proof.
  split; [reflexivity|]. split; [reflexivity|]. split; [reflexivity|].
  rewrite (proj2 (Invoke_stage_order testRouter "endpoint" (hIntAppender "test" 4)
                    (mwIntAppender "test" 2) (mwIntAppender "test" 3)
                    (mwIntAppender "test" 1) (call "endpoint" []) [] testWorld
                    eq_refl eq_refl eq_refl)
             (testSlot [1]%Z) (testSlot [1; 2]%Z) (testSlot [1; 2; 3]%Z)).
  - reflexivity.
  - intros next; reflexivity.
  - intros next; reflexivity.
  - intros next; reflexivity.
Defined.

(** A guard that refuses the call in the middle of a chain: the appender
    and the handler after it leave no trace. *)
Lemma short_circuit_stops_chain_witness :
  all_delegate (call "f" ["x"]) ["x"] [ArgCounter ["a"]] testWorld testWorld
  /\ returns_without_next (ArgCounter ["a"; "b"]) (call "f" ["x"]) ["x"] testWorld
       (Returned (Error 400 "incorrect number of arguments, expected 2: a, b"),
        Logger_Error "incorrect number of arguments, expected 2: a, b" testWorld)
  /\ use (hIntAppender "test" 2)
       ([ArgCounter ["a"]] ++ ArgCounter ["a"; "b"] :: [mwIntAppender "test" 1])
       (call "f" ["x"]) ["x"] testWorld
     = (Returned (Error 400 "incorrect number of arguments, expected 2: a, b"),
        Logger_Error "incorrect number of arguments, expected 2: a, b" testWorld).
Proof.
  assert (Hpre : all_delegate (call "f" ["x"]) ["x"] [ArgCounter ["a"]] testWorld testWorld).
  { apply (all_delegate_cons _ _ _ _ _ testWorld); [intros next; reflexivity|].
    constructor. }
  assert (Hmi : returns_without_next (ArgCounter ["a"; "b"]) (call "f" ["x"]) ["x"] testWorld
                  (Returned (Error 400 "incorrect number of arguments, expected 2: a, b"),
                   Logger_Error "incorrect number of arguments, expected 2: a, b" testWorld)).
  { intros next; reflexivity. }
  split; [exact Hpre|]. split; [exact Hmi|].
  exact (short_circuit_stops_chain _ _ _ _ _ _ _ Hpre Hmi
           [mwIntAppender "test" 1] (hIntAppender "test" 2)).
Defined.

(** [TestInvoke] on the name [nothing]. *)
Lemma Invoke_unregistered_witness :
  GetFunctionAndParameters (call "nothing" []) = ("nothing", [])
  /\ invokeMap testRouter !! "nothing" = None
  /\ snd (Invoke testRouter (call "nothing" []) testWorld)
     = (Returned (Error 400 ("invalid invoke function " +:+ dquote +:+ "nothing" +:+ dquote)),
        Logger_Error ("invalid invoke function " +:+ dquote +:+ "nothing" +:+ dquote)
          testWorld).
Proof.
  split; [reflexivity|]. split; [reflexivity|].
  exact (proj1 (Invoke_unregistered testRouter (call "nothing" []) testWorld
                  "nothing" [] eq_refl) eq_refl).
Defined.

(** The guard for [a, b] on one argument and on two. *)
Lemma ArgCounter_guard_witness :
  returns_without_next (ArgCounter ["a"; "b"]) (call "f" ["x"]) ["x"] NewWorld
    (Returned (Error 400 "incorrect number of arguments, expected 2: a, b"),
     Logger_Error "incorrect number of arguments, expected 2: a, b" NewWorld)
  /\ delegates_at (ArgCounter ["a"; "b"]) (call "f" ["x"; "y"]) ["x"; "y"] NewWorld NewWorld.
Proof.
  split.
  - apply (proj1 (ArgCounter_guard ["a"; "b"] (call "f" ["x"]) ["x"] NewWorld)).
    cbn [length]. lia.
  - apply (proj2 (ArgCounter_guard ["a"; "b"] (call "f" ["x"; "y"]) ["x"; "y"] NewWorld)).
    reflexivity.
Defined.

(** With no expected name the code stops after the count, where the text of
    the specification goes on with a colon. *)
Lemma ArgCounter_empty_expected_counterexample :
  fst (ArgCounter [] (call "f" ["x"]) ["x"] okHandler NewWorld)
  = Returned (Error 400 "incorrect number of arguments, expected 0")
  /\ spec_ArgCounter_message [] = "incorrect number of arguments, expected 0: "
  /\ fst (ArgCounter [] (call "f" ["x"]) ["x"] okHandler NewWorld)
     <> Returned (Error 400 (spec_ArgCounter_message [])).
Proof.
  split; [reflexivity|]. split; [reflexivity|].
  intros H. vm_compute in H. discriminate H.
Qed.


(** The guard at index 0 and at index -1 of a one-element list. *)
Lemma index_guard_bounds_witness :
  is_Some (index_args ["true"] 0)
  /\ index_guard (-1) ["true"] = false
  /\ index_args ["true"] (-1) = None
  /\ JSONParser (-1) "k" boolType (call "f" ["true"]) ["true"] okHandler NewWorld
     = (Panicked "runtime error: index out of range", NewWorld)
  /\ TimestampParser (-1) "unix" "k" (call "f" ["true"]) ["true"] okHandler NewWorld
     = (Panicked "runtime error: index out of range", NewWorld).
Proof.
  split.
  - apply (proj1 (index_guard_bounds 0 ["true"])); [lia | reflexivity].
  - destruct (proj2 (index_guard_bounds (-1) ["true"])) as (Hg & Hi & Hj & Ht);
      [lia | discriminate |].
    split; [exact Hg|]. split; [exact Hi|]. split; [apply Hj | apply Ht].
Defined.

(** [TestRegisterHandler]: the appending handler registered with two
    appenders on a new Router.  The registry has one entry, the handler
    returned leaves [1; 2; 3], and registering the name again keeps one
    entry. *)
Lemma RegisterHandler_stores_witness :
  invokeMap NewRouter !! "endpoint" = None
  /\ size (invokeMap (snd (RegisterHandler NewRouter "endpoint" (hIntAppender "test" 3)
                             [mwIntAppender "test" 1; mwIntAppender "test" 2]))) = 1
  /\ fst (RegisterHandler NewRouter "endpoint" (hIntAppender "test" 3)
            [mwIntAppender "test" 1; mwIntAppender "test" 2]) (call "endpoint" []) [] testWorld
     = (Returned (Success 200 None), testSlot [1; 2; 3]%Z)
  /\ is_Some (invokeMap pingRouter !! "ping")
  /\ size (invokeMap (snd (RegisterHandler pingRouter "ping" (hIntAppender "test" 3)
                             [mwIntAppender "test" 1]))) = 1.
Proof.
  pose proof (RegisterHandler_stores NewRouter "endpoint" (hIntAppender "test" 3)
                [mwIntAppender "test" 1; mwIntAppender "test" 2])
    as (_ & _ & _ & _ & Hrun & _ & _ & Hnew & _).
  pose proof (RegisterHandler_stores pingRouter "ping" (hIntAppender "test" 3)
                [mwIntAppender "test" 1])
    as (_ & _ & _ & _ & _ & _ & _ & _ & Hold).
  split; [reflexivity|]. split; [exact (Hnew eq_refl)|]. split.
  - rewrite (Hrun (call "endpoint" []) [] testWorld (testSlot [1; 2]%Z)); [reflexivity|].
    apply (all_delegate_cons _ _ _ _ _ (testSlot [1]%Z)); [intros next; reflexivity|].
    apply (all_delegate_cons _ _ _ _ _ (testSlot [1; 2]%Z)); [intros next; reflexivity|].
    constructor.
  - split; [eexists; reflexivity|]. exact (Hold (ex_intro _ _ eq_refl)).
Defined.

(** * Further properties of the composition and of the Router *)

Section Extras.

Context {rt : GoRuntime}.

Implicit Types (h next : Handler) (mw : Middleware) (ms pre post gs : list Middleware).
Implicit Types (stub : Stub) (args : list string) (w : World) (r : Router).

(** X1.  Composing with a list that is the concatenation of two lists is
    composing with the second and then with the first: the stages of the
    first list end up outside those of the second. *)
Theorem use_append_composes h pre post :
  use h (pre ++ post) = use (use h post) pre.
Proof. apply use_app. Qed.

(** X2.  Two calls of [Use] add up to one call with the concatenated list,
    and a call with no middleware leaves the Router as it is. *)
Theorem Use_accumulates r (a b : list Middleware) :
  Use (Use r a) b = Use r (a ++ b) /\ Use r [] = r.
Proof.
  split.
  - unfold Use. cbn [invokeMap middlewareChain]. now rewrite app_assoc.
  - destruct r as [im mc]. unfold Use. cbn [invokeMap middlewareChain].
    now rewrite app_nil_r.
Qed.

(** X3.  After [Use], a call to a registered name runs the middleware that
    was global before, then the middleware just added, then the registered
    handler; a call to an unregistered name is answered as before, the
    added middleware does not see it. *)
Theorem Invoke_after_Use r (mws : list Middleware) stub w :
  (forall fn, invokeMap r !! fst (GetFunctionAndParameters stub) = Some fn ->
     snd (Invoke (Use r mws) stub w)
     = use (use fn mws) (middlewareChain r) stub (snd (GetFunctionAndParameters stub)) w)
  /\ (invokeMap r !! fst (GetFunctionAndParameters stub) = None ->
      snd (Invoke (Use r mws) stub w) = snd (Invoke r stub w)).
Proof.
  split.
  - intros fn Hfn. rewrite (Invoke_found (Use r mws) stub w fn) by exact Hfn.
    cbn [snd Use middlewareChain]. now rewrite use_app.
  - intros Hnone. rewrite (Invoke_not_found (Use r mws)), (Invoke_not_found r) by exact Hnone.
    reflexivity.
Qed.

(** X4.  Once a handler is registered under a name, a call to that name
    runs the global middleware, then the middleware given at registration,
    then the handler; a call to any other name is answered as it was before
    the registration. *)
Theorem RegisterHandler_then_Invoke r (functionName : string) h (mws : list Middleware) stub w :
  (fst (GetFunctionAndParameters stub) = functionName ->
   snd (Invoke (snd (RegisterHandler r functionName h mws)) stub w)
   = use (use h mws) (middlewareChain r) stub (snd (GetFunctionAndParameters stub)) w)
  /\ (fst (GetFunctionAndParameters stub) <> functionName ->
      snd (Invoke (snd (RegisterHandler r functionName h mws)) stub w)
      = snd (Invoke r stub w)).
Proof.
  split.
  - intros Hname.
    rewrite (Invoke_found _ stub w (use h mws)); [reflexivity|].
    rewrite Hname. cbn [snd RegisterHandler invokeMap]. apply lookup_insert_eq.
  - intros Hne. unfold Invoke.
    destruct (GetFunctionAndParameters stub) as [function args]. cbn [fst] in Hne.
    cbn [snd RegisterHandler invokeMap middlewareChain].
    rewrite lookup_insert_ne by congruence.
    now destruct (invokeMap r !! function).
Qed.

(** X5.  Registering twice under one name leaves the Router that the second
    registration alone would leave: the first handler is gone. *)
Theorem RegisterHandler_last_wins r (functionName : string) (h1 h2 : Handler)
    (mws1 mws2 : list Middleware) :
  snd (RegisterHandler (snd (RegisterHandler r functionName h1 mws1)) functionName h2 mws2)
  = snd (RegisterHandler r functionName h2 mws2).
Proof.
  unfold RegisterHandler. cbn [snd invokeMap middlewareChain].
  f_equal. apply insert_insert_eq.
Qed.

(** X6.  Registrations under two different names can be made in either
    order: the Router is the same. *)
Theorem RegisterHandler_commute r (name1 name2 : string) (h1 h2 : Handler)
    (mws1 mws2 : list Middleware) :
  name1 <> name2 ->
  snd (RegisterHandler (snd (RegisterHandler r name1 h1 mws1)) name2 h2 mws2)
  = snd (RegisterHandler (snd (RegisterHandler r name2 h2 mws2)) name1 h1 mws1).
Proof.
  intros Hne. unfold RegisterHandler. cbn [snd invokeMap middlewareChain].
  f_equal. apply insert_insert_ne. congruence.
Qed.

(** X7.  Global middleware is attached when a call is dispatched, not when
    a handler is registered: adding it before or after a registration gives
    the same Router, hence the same answers. *)
Theorem Use_RegisterHandler_commute r (functionName : string) h (mws gs : list Middleware) :
  snd (RegisterHandler (Use r gs) functionName h mws)
  = Use (snd (RegisterHandler r functionName h mws)) gs
  /\ (forall stub w,
        Invoke (snd (RegisterHandler (Use r gs) functionName h mws)) stub w
        = Invoke (Use (snd (RegisterHandler r functionName h mws)) gs) stub w).
Proof. split; [reflexivity | intros; reflexivity]. Qed.

(** ** The appenders of the tests *)

Lemma set_Context_twice (c1 c2 : gmap string Value) w :
  set_Context c2 (set_Context c1 w) = set_Context c2 w.
Proof. reflexivity. Qed.

(** A chain of appenders over the appending handler, started where the slot
    holds [xs], appends the values of the chain in order and then the value
    of the handler. *)
Lemma appender_chain_run (key : string) (vs : list Z) (v : Z) stub args :
  forall (xs : list Z) w,
    Context w !! key = Some (VIntSlice xs) ->
    use (hIntAppender key v) (map (mwIntAppender key) vs) stub args w
    = (Returned (Success 200 None),
       set_Context (<[key := VIntSlice (xs ++ vs ++ [v])]> (Context w)) w).
Proof.
  induction vs as [|v0 vs IH]; intros xs w Hslot.
  - cbn [map]. rewrite use_nil. unfold hIntAppender. now rewrite Hslot.
  - cbn [map]. rewrite use_cons. unfold wrap. unfold mwIntAppender at 1.
    rewrite Hslot.
    rewrite (IH (xs ++ [v0])%list) by (cbn [set_Context Context]; apply lookup_insert_eq).
    rewrite set_Context_twice. cbn [set_Context Context].
    now rewrite insert_insert_eq, <- app_assoc.
Qed.

(** X8.  [TestHandlerUse] for any number of stages: when the slot holds an
    [[]int], the chain of appenders and the appending handler answer 200 and
    leave in the slot what it held, then the values of the middleware in
    declaration order, then the value of the handler. *)
Theorem appender_chain_order (key : string) (vs : list Z) (v : Z) (xs : list Z) stub args w :
  Context w !! key = Some (VIntSlice xs) ->
  use (hIntAppender key v) (map (mwIntAppender key) vs) stub args w
  = (Returned (Success 200 None),
     set_Context (<[key := VIntSlice (xs ++ vs ++ [v])]> (Context w)) w).
Proof. apply appender_chain_run. Qed.

(** X9.  When the slot is missing or holds something else than an [[]int],
    the type assertion of the first stage to run panics: the chain ends in
    that panic and the world is as before. *)
Theorem appender_chain_missing_slot (key : string) (vs : list Z) (v : Z) stub args w :
  (forall xs, Context w !! key <> Some (VIntSlice xs)) ->
  use (hIntAppender key v) (map (mwIntAppender key) vs) stub args w
  = (Panicked "interface conversion: interface {} is not []int", w).
Proof.
  intros Hslot. destruct vs as [|v0 vs].
  - cbn [map]. rewrite use_nil. unfold hIntAppender.
    destruct (Context w !! key) as [[xs| |]|] eqn:E; try reflexivity.
    now destruct (Hslot xs).
  - cbn [map]. rewrite use_cons. unfold wrap, mwIntAppender at 1.
    destruct (Context w !! key) as [[xs| |]|] eqn:E; try reflexivity.
    now destruct (Hslot xs).
Qed.

(** X10.  [TestInvoke] for any number of stages, and twice: with appenders
    as global middleware [gs], appenders [ms] registered with an appending
    handler, and a slot holding [xs], a call answers 200 and the slot holds
    [xs] followed by the values of [gs], of [ms] and of the handler.  The
    context map is not reset between calls: a second call starts from what
    the first one left and appends the same values again. *)
Theorem Invoke_appenders_accumulate r (name key : string) (gs ms : list Z) (v : Z)
    (xs : list Z) stub args w :
  GetFunctionAndParameters stub = (name, args) ->
  invokeMap r !! name = Some (use (hIntAppender key v) (map (mwIntAppender key) ms)) ->
  middlewareChain r = map (mwIntAppender key) gs ->
  Context w !! key = Some (VIntSlice xs) ->
  let run := (gs ++ ms ++ [v])%list in
  snd (Invoke r stub w)
  = (Returned (Success 200 None), set_Context (<[key := VIntSlice (xs ++ run)]> (Context w)) w)
  /\ snd (Invoke r stub (snd (snd (Invoke r stub w))))
     = (Returned (Success 200 None),
        set_Context (<[key := VIntSlice (xs ++ run ++ run)]> (Context w)) w).
Proof.
  intros Hcall Hreg Hchain Hslot run.
  assert (Hone : forall ys w0, Context w0 !! key = Some (VIntSlice ys) ->
            snd (Invoke r stub w0)
            = (Returned (Success 200 None),
               set_Context (<[key := VIntSlice (ys ++ run)]> (Context w0)) w0)).
  { intros ys w0 Hys.
    rewrite (Invoke_found r stub w0 _ ltac:(rewrite Hcall; exact Hreg)).
    cbn [snd]. rewrite Hchain, Hcall. cbn [snd].
    rewrite <- use_app, <- map_app, (appender_chain_run _ _ _ _ _ ys) by exact Hys.
    subst run. now rewrite <- app_assoc. }
  split; [now apply Hone|].
  rewrite (Hone xs w Hslot). cbn [snd].
  rewrite (Hone (xs ++ run)%list)
    by (cbn [set_Context Context]; apply lookup_insert_eq).
  rewrite set_Context_twice. cbn [set_Context Context].
  now rewrite insert_insert_eq, <- app_assoc.
Qed.

End Extras.

(** * Further properties of the middleware *)

Section MiddlewareExtras.

Context {rt : GoRuntime}.

Implicit Types (h next : Handler) (stub : Stub) (args : list string) (w : World).

(** X11.  An argument count in front of a parser protects its index.  Let
    the chain be [pre], the count for [expected], [mid], a parser and
    [post], with an index that is not negative and below the number of
    expected names, and let the stages of [pre] delegate, on the same
    arguments.  For a wrong number of arguments the chain answers the 400
    of the count.  For the right number, when the stages of [mid] delegate
    too, the argument at the index exists and the parser decodes it, with
    the rest of the chain as its "next": neither the 500 of the index
    guard nor the index panic can come up. *)
Theorem ArgCounter_protects_parsers (expected : list string) (argIndex : Z)
    (contextKey timeFormat : string) (valueType : reflect_Type)
    (pre mid post : list Middleware) h stub args w w0 :
  (0 <= argIndex < Z.of_nat (length expected))%Z ->
  all_delegate stub args pre w w0 ->
  (length args <> length expected ->
   let res := (Returned (Error 400 (ArgCounter_message expected)),
               Logger_Error (ArgCounter_message expected) w0) in
   use h (pre ++ ArgCounter expected
            :: mid ++ JSONParser argIndex contextKey valueType :: post) stub args w = res
   /\ use h (pre ++ ArgCounter expected
               :: mid ++ TimestampParser argIndex timeFormat contextKey :: post) stub args w
      = res)
  /\ (length args = length expected ->
      forall w1, all_delegate stub args mid w0 w1 ->
      exists a,
        index_args args argIndex = Some a
        /\ use h (pre ++ ArgCounter expected
                    :: mid ++ JSONParser argIndex contextKey valueType :: post) stub args w
           = (let w2 := set_Heap (Heap w1 ++ [fst (json_Unmarshal a (reflect_Zero valueType))])
                          w1 in
              match snd (json_Unmarshal a (reflect_Zero valueType)) with
              | Some err =>
                  (Returned (Error 400 ("error unmarshalling json: " +:+ err)),
                   Logger_Error err w2)
              | None =>
                  use h post stub args
                    (set_Context (<[contextKey := VPointer (length (Heap w1))]> (Context w2))
                       w2)
              end)
        /\ use h (pre ++ ArgCounter expected
                    :: mid ++ TimestampParser argIndex timeFormat contextKey :: post)
             stub args w
           = match time_Parse timeFormat a with
             | inr err =>
                 (Returned (Error 400 ("error parsing time string: " +:+ err)),
                  Logger_Error err w1)
             | inl ts =>
                 use h post stub args
                   (set_Context (<[contextKey := VTime ts]> (Context w1)) w1)
             end).
Proof.
  intros [Hnn Hlt] Hpre.
  assert (Hhead : forall rest : list Middleware,
             use h (pre ++ ArgCounter expected :: rest) stub args w
             = ArgCounter expected stub args (use h rest) w0).
  { intros rest. rewrite use_app, (use_all_delegate _ _ _ _ _ _ Hpre), use_cons.
    reflexivity. }
  split.
  - intros Hne res. rewrite !Hhead. unfold ArgCounter.
    destruct (Nat.eqb_spec (length args) (length expected)); [contradiction|].
    now split.
  - intros Heq w1 Hmid.
    destruct (lookup_lt_is_Some_2 args (Z.to_nat argIndex)) as [a Ha]; [lia|].
    exists a. rewrite !Hhead. unfold ArgCounter.
    rewrite (proj2 (Nat.eqb_eq _ _) Heq). cbn [negb].
    rewrite !use_app, !(use_all_delegate _ _ _ _ _ _ Hmid), !use_cons. unfold wrap.
    split; [|split].
    + now rewrite index_args_nonneg.
    + now apply JSONParser_in_range.
    + unfold TimestampParser.
      rewrite (proj2 (index_guard_false argIndex args)) by lia.
      now rewrite index_args_nonneg, Ha.
Qed.

(** X14.  Every call of the structured-value parser on an index within
    bounds allocates one new object and touches nothing that was there:
    whether it delegates or answers an error, in the world it leaves the
    heap is one object longer, every object allocated before is unchanged,
    and every context key other than its own holds what it held. *)
Theorem JSONParser_fresh_object (argIndex : Z) (contextKey : string)
    (valueType : reflect_Type) stub args w (a : string) :
  (0 <= argIndex)%Z ->
  args !! Z.to_nat argIndex = Some a ->
  exists w',
    (delegates_at (JSONParser argIndex contextKey valueType) stub args w w'
     \/ exists rsp, returns_without_next (JSONParser argIndex contextKey valueType)
                      stub args w (Returned rsp, w'))
    /\ length (Heap w') = S (length (Heap w))
    /\ (forall p v, Heap w !! p = Some v -> Heap w' !! p = Some v)
    /\ (forall other, other <> contextKey -> Context w' !! other = Context w !! other).
Proof.
  intros Hnn Ha.
  pose proof (fun next => JSONParser_in_range argIndex contextKey valueType
                            stub args next w a Hnn Ha) as Hrun.
  destruct (json_Unmarshal a (reflect_Zero valueType)) as [v [err|]];
    cbn [fst snd] in Hrun; eexists; (split; [|split; [|split]]).
  - right. eexists. intros next. apply Hrun.
  - cbn [Logger_Error set_Heap Heap]. rewrite length_app. cbn [length]. lia.
  - intros p v0 Hp. cbn [Logger_Error set_Heap Heap]. now apply lookup_app_l_Some.
  - reflexivity.
  - left. intros next. apply Hrun.
  - cbn [set_Context set_Heap Heap]. rewrite length_app. cbn [length]. lia.
  - intros p v0 Hp. cbn [set_Context set_Heap Heap]. now apply lookup_app_l_Some.
  - intros other Hne. cbn [set_Context set_Heap Context].
    apply lookup_insert_ne. congruence.
Qed.

End MiddlewareExtras.

(** * Properties of the helper functions *)

Section HelperProperties.

Context {rt : GoRuntime} {sh : Shim}.

Implicit Types (l : Ledger) (w : World) (key queryString : string).

Lemma string_app_empty_l (s : string) : EmptyString +:+ s = s.
Proof. reflexivity. Qed.

(** The loop on an iterator that delivers records only: every record is
    written, with a comma in front of all but the first one written. *)
Lemma query_loop_records (kvs : list (string * string)) :
  forall (kv : string * string) (written : bool) (buffer : string),
    query_loop (map inl (kv :: kvs)) written buffer
    = (inl (buffer +:+ (if written then "," else EmptyString)
              +:+ String.concat "," (map query_record (kv :: kvs))), []).
Proof.
  induction kvs as [|kv' kvs IH]; intros [k v] written buffer.
  - cbn [map query_loop String.concat]. unfold query_record. cbn [fst snd].
    destruct written; now rewrite ?string_app_empty_l, ?string_app_assoc.
  - change (map inl ((k, v) :: kv' :: kvs))
      with (inl (k, v) :: map (@inl _ string) (kv' :: kvs)).
    cbn [query_loop]. rewrite IH.
    change (String.concat "," (map query_record ((k, v) :: kv' :: kvs)))
      with (query_record (k, v) +:+ "," +:+ String.concat "," (map query_record (kv' :: kvs))).
    unfold query_record at 2. cbn [fst snd].
    destruct written; now rewrite ?string_app_empty_l, ?string_app_assoc.
Qed.

(** The loop on an iterator whose [Next] fails after some records: the
    error comes back and the rest is not asked for. *)
Lemma query_loop_error (kvs : list (string * string)) (err : string)
    (rest : list ((string * string) + string)) :
  forall (written : bool) (buffer : string),
    query_loop (map inl kvs ++ inr err :: rest) written buffer = (inr err, rest).
Proof.
  induction kvs as [|[k v] kvs IH]; intros written buffer; [reflexivity|].
  cbn [map app query_loop]. apply IH.
Qed.

(** The loop returns a buffer exactly when the iterator delivers records
    only, and then nothing is left in it. *)
Lemma query_loop_outcome (pending : list ((string * string) + string)) :
  forall (written : bool) (buffer : string),
    match query_loop pending written buffer with
    | (inl _, rest) => Forall (fun r => exists kv, r = inl kv) pending /\ rest = []
    | (inr _, _) => ~ Forall (fun r => exists kv, r = inl kv) pending
    end.
Proof.
  induction pending as [|[[k v]|err] pending IH]; intros written buffer.
  - now split.
  - cbn [query_loop]. specialize (IH true).
    match goal with |- context [query_loop pending true ?b] => specialize (IH b);
      destruct (query_loop pending true b) as [[buf|e] rest] end.
    + destruct IH as [Hall ->]. split; [|reflexivity]. constructor; eauto.
    + intros Hall. apply IH. now inversion Hall.
  - cbn [query_loop]. intros Hall. inversion Hall as [|? ? [kv Hkv] _]. discriminate.
Qed.

(** X15.  When the query delivers records only, the helper returns, with no
    error, the opening bracket, the records in the order delivered, each as
    its key between double quotes and its bytes as they are, separated by
    commas, and the closing bracket: the two brackets alone for no record.
    The iterator is read to its end and closed, and the query and the
    result are logged. *)
Theorem query_all_records queryString l w (kvs : list (string * string)) :
  stub_GetQueryResult queryString l = inl (map inl kvs) ->
  let result := "[" +:+ String.concat "," (map query_record kvs) +:+ "]" in
  GetQueryResultForQueryString queryString l w
  = ((Some result, None), Some {| pending := []; closed := true |},
     Logger_Debug ("- getQueryResultForQueryString queryResult:" +:+ newline
                     +:+ result +:+ newline)
       (Logger_Debug ("getQueryResultForQueryString queryString:" +:+ newline
                        +:+ queryString +:+ newline) w)).
Proof.
  intros Hquery result. unfold GetQueryResultForQueryString. rewrite Hquery.
  cbn [pending]. subst result. destruct kvs as [|kv kvs].
  - reflexivity.
  - rewrite query_loop_records. now rewrite string_app_empty_l, !string_app_assoc.
Qed.

(** X16.  When a [Next] fails, the helper returns that error and no bytes,
    whatever was written so far; the records after the failing one are not
    read, the iterator is closed all the same, and the result line is not
    logged. *)
Theorem query_first_error_aborts queryString l w (kvs : list (string * string))
    (err : string) (rest : list ((string * string) + string)) :
  stub_GetQueryResult queryString l = inl (map inl kvs ++ inr err :: rest)%list ->
  GetQueryResultForQueryString queryString l w
  = ((None, Some err), Some {| pending := rest; closed := true |},
     Logger_Debug ("getQueryResultForQueryString queryString:" +:+ newline
                     +:+ queryString +:+ newline) w).
Proof.
  intros Hquery. unfold GetQueryResultForQueryString. rewrite Hquery.
  cbn [pending]. now rewrite query_loop_error.
Qed.

(** X17.  When the stub refuses the query, the helper returns its error and
    no iterator was obtained.  When the stub hands out an iterator, the
    helper leaves it closed on every path, and it returns bytes exactly
    when every [Next] delivered a record, an error otherwise, never both
    and never neither. *)
Theorem query_iterator_closed queryString l w :
  (forall err, stub_GetQueryResult queryString l = inr err ->
     fst (GetQueryResultForQueryString queryString l w) = ((None, Some err), None))
  /\ (forall results, stub_GetQueryResult queryString l = inl results ->
        exists payload err it,
          fst (GetQueryResultForQueryString queryString l w) = ((payload, err), Some it)
          /\ closed it = true
          /\ (is_Some payload <-> Forall (fun r => exists kv, r = inl kv) results)
          /\ (is_Some payload <-> err = None)).
Proof.
  split.
  - intros err Hquery. unfold GetQueryResultForQueryString. now rewrite Hquery.
  - intros results Hquery. unfold GetQueryResultForQueryString. rewrite Hquery.
    cbn [pending].
    pose proof (query_loop_outcome results false "[") as Hloop.
    destruct (query_loop results false "[") as [[buffer|err] rest]; cbn [fst].
    + destruct Hloop as [Hall ->]. do 3 eexists. split; [reflexivity|].
      split; [reflexivity|]. split; split; eauto.
    + do 3 eexists. split; [reflexivity|]. split; [reflexivity|].
      split; split; try (intros [? [=]]); try discriminate. intros Hall. now destruct Hloop.
Qed.

(** X19.  [PutJSON] returns bytes exactly when it returns no error; the
    bytes are the marshalled value and nothing is logged then; an error it
    returns is logged; and when marshalling fails the ledger is left as it
    was, the stub is not written to. *)
Theorem PutJSON_outcomes key (value : Obj) l w :
  let payload := fst (fst (fst (PutJSON key value l w))) in
  let err := snd (fst (fst (PutJSON key value l w))) in
  let l' := snd (fst (PutJSON key value l w)) in
  let w' := snd (PutJSON key value l w) in
  (is_Some payload <-> err = None)
  /\ (forall b, payload = Some b -> json_Marshal value = inl b /\ w' = w)
  /\ (forall e, err = Some e -> w' = Logger_Error e w)
  /\ (forall e, json_Marshal value = inr e -> l' = l /\ err = Some e).
Proof.
  unfold PutJSON.
  destruct (json_Marshal value) as [b|e]; cbn [fst snd].
  - destruct (stub_PutState key b l) as [[e|] l1]; cbn [fst snd].
    + split; [split; [intros [? [=]] | discriminate]|].
      split; [discriminate|]. split; [|discriminate].
      now intros e' [= <-].
    + split; [split; [reflexivity | eauto]|].
      split; [now intros b' [= <-]|]. split; discriminate.
  - split; [split; [intros [? [=]] | discriminate]|].
    split; [discriminate|]. split; now intros e' [= <-].
Qed.

(** X20.  The error paths of [GetJSON].  When the stub cannot read the
    key, its error is returned, the line naming the key and the error is
    logged, and the decoder is not called: nothing else changes.  When the
    bytes do not decode, the error of the decoder is returned and the line
    naming the bytes and the error is logged.  When both succeed no error
    is returned and nothing is logged.  So an error is returned exactly
    when a line is logged, and then one line. *)
Theorem GetJSON_errors key (valuePtr : nat) l w :
  (forall e, stub_GetState key l = inr e ->
     GetJSON key valuePtr l w
     = (Some e,
        Logger_Error ("error getting state of " +:+ key +:+ " from ledger: " +:+ e) w))
  /\ (forall b e w1,
        stub_GetState key l = inl b ->
        Unmarshal b valuePtr w = (Some e, w1) ->
        GetJSON key valuePtr l w
        = (Some e,
           Logger_Error ("error deserialising value of " +:+ b +:+ " as json: " +:+ e) w1))
  /\ (forall b w1,
        stub_GetState key l = inl b ->
        Unmarshal b valuePtr w = (None, w1) ->
        GetJSON key valuePtr l w = (None, w1))
  /\ (fst (GetJSON key valuePtr l w) = None ->
      Log (snd (GetJSON key valuePtr l w)) = Log w)
  /\ (forall e, fst (GetJSON key valuePtr l w) = Some e ->
        exists msg, Log (snd (GetJSON key valuePtr l w)) = (Log w ++ [msg])%list).
Proof.
  assert (Hlog : forall b, Log (snd (Unmarshal b valuePtr w)) = Log w).
  { intros b. unfold Unmarshal. destruct (Heap w !! valuePtr) as [v|]; [|reflexivity].
    now destruct (json_Unmarshal b v). }
  split; [|split; [|split; [|split]]].
  - intros e Hget. unfold GetJSON. now rewrite Hget.
  - intros b e w1 Hget Hdec. unfold GetJSON. now rewrite Hget, Hdec.
  - intros b w1 Hget Hdec. unfold GetJSON. now rewrite Hget, Hdec.
  - unfold GetJSON. destruct (stub_GetState key l) as [b|e]; [|discriminate].
    specialize (Hlog b). destruct (Unmarshal b valuePtr w) as [[e|] w1]; [discriminate|].
    intros _. exact Hlog.
  - intros e. unfold GetJSON. destruct (stub_GetState key l) as [b|e0].
    + specialize (Hlog b). destruct (Unmarshal b valuePtr w) as [[e1|] w1]; [|discriminate].
      intros _. eexists. cbn [snd Logger_Error Log]. cbn [snd] in Hlog. now rewrite Hlog.
    + intros _. eexists. reflexivity.
Qed.

(** X18.  What [PutJSON] stores, [GetJSON] reads back: when the value
    marshals, the stub takes the bytes and gives them back for the key, and
    the decoder turns them into the value again, [PutJSON] returns the
    bytes and [GetJSON] on the ledger it left returns no error and leaves
    the value behind the pointer, with nothing logged. *)
Theorem PutJSON_GetJSON_roundtrip key (value old : Obj) (b : string) l l' w
    (valuePtr : nat) :
  json_Marshal value = inl b ->
  stub_PutState key b l = (None, l') ->
  stub_GetState key l' = inl b ->
  Heap w !! valuePtr = Some old ->
  json_Unmarshal b old = (value, None) ->
  PutJSON key value l w = ((Some b, None), l', w)
  /\ GetJSON key valuePtr l' w = (None, set_Heap (<[valuePtr := value]> (Heap w)) w)
  /\ Heap (snd (GetJSON key valuePtr l' w)) !! valuePtr = Some value.
Proof.
  intros Hmarshal Hput Hget Hptr Hdecode.
  assert (Hread : GetJSON key valuePtr l' w
                  = (None, set_Heap (<[valuePtr := value]> (Heap w)) w)).
  { unfold GetJSON, Unmarshal. now rewrite Hget, Hptr, Hdecode. }
  split; [|split].
  - unfold PutJSON. now rewrite Hmarshal, Hput.
  - exact Hread.
  - rewrite Hread. cbn [snd set_Heap Heap].
    apply list_lookup_insert_eq. now apply lookup_lt_Some in Hptr.
Qed.

(** X21.  [GetCreatorCert] returns a certificate or an error, never
    neither, and [GetCreatorCommonName] follows it: the common name of the
    certificate with no error, the empty name with the error, the same
    panic, in the same world. *)
Theorem GetCreatorCommonName_follows_cert l w :
  snd (GetCreatorCommonName l w) = snd (GetCreatorCert l w)
  /\ match fst (GetCreatorCert l w) with
     | Panics reason => fst (GetCreatorCommonName l w) = Panics reason
     | Done (_, Some err) =>
         fst (GetCreatorCommonName l w) = Done (EmptyString, Some err)
     | Done (Some cert, None) =>
         fst (GetCreatorCommonName l w) = Done (CommonName cert, None)
     | Done (None, None) => False
     end.
Proof.
  unfold GetCreatorCommonName, GetCreatorCert.
  destruct (stub_GetCreator l) as [creatorBytes|err]; [|now split].
  destruct (proto_Unmarshal creatorBytes) as [id|err]; [|now split].
  destruct (pem_Decode (IdBytes id)) as [block|]; [|now split].
  now destruct (x509_ParseCertificate (Block_Bytes block)).
Qed.

(** X22.  When the creator bytes decode to an identity whose bytes hold no
    PEM block, [GetCreatorCert] does not return an error: it logs the
    identity and the nil block and then panics on [block.Bytes], and so
    does [GetCreatorCommonName]. *)
Theorem GetCreatorCert_no_pem_panics l w (creatorBytes : string) (id : SerializedIdentity) :
  stub_GetCreator l = inl creatorBytes ->
  proto_Unmarshal creatorBytes = inl id ->
  pem_Decode (IdBytes id) = None ->
  let w' := Logger_Debug ("Pem: " +:+ Sprintf_block None)
              (Logger_Debug ("Creator Identity: " +:+ Sprintf_identity id) w) in
  GetCreatorCert l w = (Panics "invalid memory address or nil pointer dereference", w')
  /\ GetCreatorCommonName l w
     = (Panics "invalid memory address or nil pointer dereference", w').
Proof.
  intros Hcreator Hproto Hpem w'.
  assert (Hcert : GetCreatorCert l w
                  = (Panics "invalid memory address or nil pointer dereference", w')).
  { unfold GetCreatorCert. now rewrite Hcreator, Hproto, Hpem. }
  split; [exact Hcert|]. unfold GetCreatorCommonName. now rewrite Hcert.
Qed.

End HelperProperties.

(** * The further properties at work *)

(** A global count added to the Router of the tests lets the registered
    call through to the appenders and does not see an unknown name. *)
Lemma Invoke_after_Use_witness :
  snd (Invoke (Use testRouter [ArgCounter []]) (call "endpoint" []) testWorld)
  = (Returned (Success 200 None), testSlot [1; 2; 3; 4]%Z)
  /\ snd (Invoke (Use testRouter [ArgCounter []]) (call "nothing" []) testWorld)
     = snd (Invoke testRouter (call "nothing" []) testWorld).
Proof.
  split.
  - rewrite (proj1 (Invoke_after_Use testRouter [ArgCounter []] (call "endpoint" [])
                      testWorld) _ eq_refl).
    reflexivity.
  - exact (proj2 (Invoke_after_Use testRouter [ArgCounter []] (call "nothing" [])
                    testWorld) eq_refl).
Defined.

(** A second endpoint on the Router of the tests, registered with two
    appenders: its call runs the global appender, then the two, then the
    handler; the first endpoint answers as before. *)
Lemma RegisterHandler_then_Invoke_witness :
  snd (Invoke (snd (RegisterHandler testRouter "extra" (hIntAppender "test" 9)
                      [mwIntAppender "test" 7; mwIntAppender "test" 8]))
         (call "extra" []) testWorld)
  = (Returned (Success 200 None), testSlot [1; 7; 8; 9]%Z)
  /\ snd (Invoke (snd (RegisterHandler testRouter "extra" (hIntAppender "test" 9)
                         [mwIntAppender "test" 7; mwIntAppender "test" 8]))
            (call "endpoint" []) testWorld)
     = snd (Invoke testRouter (call "endpoint" []) testWorld).
Proof.
  split.
  - rewrite (proj1 (RegisterHandler_then_Invoke testRouter "extra" (hIntAppender "test" 9)
                      [mwIntAppender "test" 7; mwIntAppender "test" 8]
                      (call "extra" []) testWorld) eq_refl).
    reflexivity.
  - apply (proj2 (RegisterHandler_then_Invoke testRouter "extra" (hIntAppender "test" 9)
                    [mwIntAppender "test" 7; mwIntAppender "test" 8]
                    (call "endpoint" []) testWorld)).
    discriminate.
Defined.

Lemma RegisterHandler_commute_witness :
  "ping" <> "echo"
  /\ snd (RegisterHandler (snd (RegisterHandler NewRouter "ping" okHandler [])) "echo"
            okHandler [ArgCounter ["a"]])
     = snd (RegisterHandler (snd (RegisterHandler NewRouter "echo" okHandler
                                    [ArgCounter ["a"]])) "ping" okHandler []).
Proof.
  split; [discriminate|]. apply RegisterHandler_commute. discriminate.
Defined.

Lemma appender_chain_order_witness :
  Context testWorld !! "test" = Some (VIntSlice [])
  /\ use (hIntAppender "test" 3) (map (mwIntAppender "test") [1; 2]%Z) (call "f" []) []
       testWorld
     = (Returned (Success 200 None), testSlot [1; 2; 3]%Z).
Proof.
  split; [reflexivity|].
  exact (appender_chain_order "test" [1; 2]%Z 3 [] (call "f" []) [] testWorld eq_refl).
Defined.

Lemma appender_chain_missing_slot_witness :
  (forall xs, Context NewWorld !! "test" <> Some (VIntSlice xs))
  /\ use (hIntAppender "test" 3) (map (mwIntAppender "test") [1; 2]%Z) (call "f" []) []
       NewWorld
     = (Panicked "interface conversion: interface {} is not []int", NewWorld).
Proof.
  assert (Hslot : forall xs, Context NewWorld !! "test" <> Some (VIntSlice xs)).
  { intros xs. cbn [NewWorld Context]. rewrite lookup_empty. discriminate. }
  split; [exact Hslot|].
  exact (appender_chain_missing_slot "test" [1; 2]%Z 3 (call "f" []) [] NewWorld Hslot).
Defined.

(** [TestInvoke], and the same call once more. *)
Lemma Invoke_appenders_accumulate_witness :
  snd (Invoke testRouter (call "endpoint" []) testWorld)
  = (Returned (Success 200 None), testSlot [1; 2; 3; 4]%Z)
  /\ snd (Invoke testRouter (call "endpoint" [])
            (snd (snd (Invoke testRouter (call "endpoint" []) testWorld))))
     = (Returned (Success 200 None), testSlot [1; 2; 3; 4; 1; 2; 3; 4]%Z).
Proof.
  exact (Invoke_appenders_accumulate testRouter "endpoint" "test" [1]%Z [2; 3]%Z 4 []
           (call "endpoint" []) [] testWorld eq_refl eq_refl eq_refl eq_refl).
Defined.

Lemma ArgCounter_protects_parsers_witness :
  all_delegate (call "f" ["true"]) ["true"] [mwIntAppender "test" 1] testWorld
    (testSlot [1]%Z)
  /\ use okHandler
       ([mwIntAppender "test" 1] ++ ArgCounter ["a"]
          :: [mwIntAppender "test" 2] ++ JSONParser 0 "k" boolType :: [mwIntAppender "test" 3])
       (call "f" []) [] testWorld
     = (Returned (Error 400 "incorrect number of arguments, expected 1: a"),
        Logger_Error "incorrect number of arguments, expected 1: a" (testSlot [1]%Z))
  /\ exists a,
       index_args ["true"] 0 = Some a
       /\ use okHandler
            ([mwIntAppender "test" 1] ++ ArgCounter ["a"]
               :: [mwIntAppender "test" 2] ++ JSONParser 0 "k" boolType
               :: [mwIntAppender "test" 3])
            (call "f" ["true"]) ["true"] testWorld
          = (Returned (Success 200 None),
             set_Context (<["k" := VPointer 0]> (Context (testSlot [1; 2; 3]%Z)))
               (set_Heap [true] (testSlot [1; 2; 3]%Z))).
Proof.
  assert (Hrange : (0 <= 0 < Z.of_nat (length ["a"]))%Z) by (cbn [length]; lia).
  assert (Hpre : forall args, all_delegate (call "f" args) args [mwIntAppender "test" 1]
                                testWorld (testSlot [1]%Z)).
  { intros args. apply (all_delegate_cons _ _ _ _ _ (testSlot [1]%Z));
      [intros next; reflexivity | constructor]. }
  assert (Hmid : all_delegate (call "f" ["true"]) ["true"] [mwIntAppender "test" 2]
                   (testSlot [1]%Z) (testSlot [1; 2]%Z)).
  { apply (all_delegate_cons _ _ _ _ _ (testSlot [1; 2]%Z));
      [intros next; reflexivity | constructor]. }
  split; [apply Hpre|]. split.
  - apply (proj1 (ArgCounter_protects_parsers ["a"] 0 "k" "unix" boolType
                    [mwIntAppender "test" 1] [mwIntAppender "test" 2]
                    [mwIntAppender "test" 3] okHandler
                    (call "f" []) [] testWorld (testSlot [1]%Z) Hrange (Hpre []))).
    discriminate.
  - destruct (proj2 (ArgCounter_protects_parsers ["a"] 0 "k" "unix" boolType
                       [mwIntAppender "test" 1] [mwIntAppender "test" 2]
                       [mwIntAppender "test" 3] okHandler
                       (call "f" ["true"]) ["true"] testWorld (testSlot [1]%Z)
                       Hrange (Hpre ["true"]))
                eq_refl (testSlot [1; 2]%Z) Hmid)
      as (a & Ha & Hjson & _).
    exists a. split; [exact Ha|]. rewrite Hjson.
    injection Ha as <-. reflexivity.
Defined.

Lemma TimestampParser_cases_witness :
  returns_without_next (TimestampParser 5 "unix" "ts") (call "f" ["0"]) ["0"] NewWorld
    (Returned (Error 500 "error parsing time: argIndex 5 was greater than length of args"),
     Logger_Error "argIndex 5 was greater than length of args" NewWorld)
  /\ returns_without_next (TimestampParser 0 "unix" "ts") (call "f" ["x"]) ["x"] NewWorld
       (Returned (Error 400 "error parsing time string: cannot parse"),
        Logger_Error "cannot parse" NewWorld)
  /\ delegates_at (TimestampParser 0 "unix" "ts") (call "f" ["1"]) ["1"] NewWorld
       (set_Context (<["ts" := VTime (unixTime 1 0)]> (Context NewWorld)) NewWorld).
Proof.
  split; [|split].
  - apply (proj1 (TimestampParser_cases 5 "unix" "ts" (call "f" ["0"]) ["0"] NewWorld)).
    reflexivity.
  - apply (proj1 (proj2 (TimestampParser_cases 0 "unix" "ts" (call "f" ["x"]) ["x"] NewWorld))
             "x" "cannot parse"); [lia | reflexivity | reflexivity].
  - apply (proj2 (proj2 (TimestampParser_cases 0 "unix" "ts" (call "f" ["1"]) ["1"] NewWorld))
             "1" (unixTime 1 0)); [lia | reflexivity | reflexivity].
Defined.

Lemma TransactionTimestamp_cases_witness :
  returns_without_next (TransactionTimestamp "now")
    {| GetFunctionAndParameters := ("f", []); GetTxTimestamp := inr "unavailable" |} []
    NewWorld
    (Returned (Error 500 "error getting transaction timestamp: unavailable"),
     Logger_Error "error getting transaction timestamp: unavailable" NewWorld)
  /\ delegates_at (TransactionTimestamp "now") (call "f" []) [] NewWorld
       (set_Context (<["now" := VTime (unixTime 0 0)]> (Context NewWorld)) NewWorld).
Proof.
  split.
  - apply (proj1 (TransactionTimestamp_cases "now"
                    {| GetFunctionAndParameters := ("f", []);
                       GetTxTimestamp := inr "unavailable" |} [] NewWorld)
             "unavailable").
    reflexivity.
  - intros next.
    exact (proj2 (TransactionTimestamp_cases "now" (call "f" []) [] NewWorld) 0%Z 0%Z
             eq_refl next).
Defined.

Lemma JSONParser_fresh_object_witness :
  (0 <= 0)%Z
  /\ ["tru"] !! Z.to_nat 0 = Some "tru"
  /\ exists w',
       (delegates_at (JSONParser 0 "k" boolType) (call "f" ["tru"]) ["tru"] testWorld w'
        \/ exists rsp, returns_without_next (JSONParser 0 "k" boolType) (call "f" ["tru"])
                         ["tru"] testWorld (Returned rsp, w'))
       /\ length (Heap w') = S (length (Heap testWorld))
       /\ (forall p v, Heap testWorld !! p = Some v -> Heap w' !! p = Some v)
       /\ (forall other, other <> "k" -> Context w' !! other = Context testWorld !! other).
Proof.
  split; [lia|]. split; [reflexivity|].
  apply (JSONParser_fresh_object 0 "k" boolType (call "f" ["tru"]) ["tru"] testWorld "tru");
    [lia | reflexivity].
Defined.

(** The query helper on the ledger with two records and on the one whose
    second record cannot be read. *)
Lemma query_all_records_witness :
  stub_GetQueryResult "q" testLedger = inl (map inl [("a", "true"); ("b", "false")])
  /\ fst (fst (GetQueryResultForQueryString "q" testLedger NewWorld))
     = (Some ("[" +:+ query_record ("a", "true") +:+ "," +:+ query_record ("b", "false")
                +:+ "]"), None).
Proof.
  split; [reflexivity|].
  rewrite (query_all_records "q" testLedger NewWorld [("a", "true"); ("b", "false")] eq_refl).
  reflexivity.
Defined.

Lemma query_first_error_aborts_witness :
  stub_GetQueryResult "q" brokenLedger
  = inl (map inl [("c", "true")] ++ inr "corrupt record" :: [inl ("b", "false")])%list
  /\ fst (GetQueryResultForQueryString "q" brokenLedger NewWorld)
     = ((None, Some "corrupt record"),
        Some {| pending := [inl ("b", "false")]; closed := true |}).
Proof.
  split; [reflexivity|].
  rewrite (query_first_error_aborts "q" brokenLedger NewWorld [("c", "true")]
             "corrupt record" [inl ("b", "false")] eq_refl).
  reflexivity.
Defined.

Lemma query_iterator_closed_witness :
  fst (GetQueryResultForQueryString EmptyString testLedger NewWorld)
  = ((None, Some "empty query"), None)
  /\ exists payload err it,
       fst (GetQueryResultForQueryString "q" brokenLedger NewWorld) = ((payload, err), Some it)
       /\ closed it = true
       /\ (is_Some payload
           <-> Forall (fun r => exists kv, r = inl kv)
                 [inl ("c", "true"); inr "corrupt record"; inl ("b", "false")])
       /\ (is_Some payload <-> err = None).
Proof.
  split.
  - exact (proj1 (query_iterator_closed EmptyString testLedger NewWorld)
             "empty query" eq_refl).
  - exact (proj2 (query_iterator_closed "q" brokenLedger NewWorld)
             [inl ("c", "true"); inr "corrupt record"; inl ("b", "false")] eq_refl).
Defined.

(** Storing [true] under a key of the empty ledger and reading it back
    into an object that held [false]. *)
Lemma PutJSON_GetJSON_roundtrip_witness :
  PutJSON "k" (true : @Obj boolRuntime) emptyLedger
    (@set_Heap boolRuntime [false] NewWorld)
  = ((Some "true", None), trueLedger, set_Heap [false] NewWorld)
  /\ GetJSON "k" 0 trueLedger (@set_Heap boolRuntime [false] NewWorld)
     = (None, @set_Heap boolRuntime [true] NewWorld).
Proof.
  destruct (PutJSON_GetJSON_roundtrip "k" (true : @Obj boolRuntime) (false : @Obj boolRuntime)
              "true" emptyLedger trueLedger
              (@set_Heap boolRuntime [false] NewWorld) 0
              eq_refl eq_refl eq_refl eq_refl eq_refl) as (Hput & Hget & _).
  split; [exact Hput | exact Hget].
Defined.

(** A creator whose identity bytes are not PEM. *)
Lemma GetCreatorCert_no_pem_panics_witness :
  stub_GetCreator aliceLedger = inl "alice"
  /\ fst (GetCreatorCert aliceLedger NewWorld)
     = Panics "invalid memory address or nil pointer dereference"
  /\ fst (GetCreatorCommonName aliceLedger NewWorld)
     = Panics "invalid memory address or nil pointer dereference".
Proof.
  destruct (GetCreatorCert_no_pem_panics aliceLedger NewWorld "alice" ("alice" : @SerializedIdentity boolRuntime mapShim)
              eq_refl eq_refl eq_refl) as [Hcert Hname].
  split; [reflexivity|]. split; [now rewrite Hcert | now rewrite Hname].
Defined.

(** * Dispatch with stages that reach the Router, at work *)

(** The handler behind [grow] registers a name while it is dispatched, and
    the global middleware of the second Router adds to the global list:
    after the call the registry, or the list, is not what it was. *)
Lemma Invoke_state_registry_counterexample :
  cell_invokeMap (st_Router growState) !! "late" = None
  /\ cell_invokeMap (st_Router (snd (Invoke_state growProgram (call "grow" []) growState)))
       !! "late" = Some (NamedFunc 1)
  /\ cell_invokeMap (st_Router (snd (Invoke_state growProgram (call "grow" []) growState)))
     <> cell_invokeMap (st_Router growState)
  /\ cell_middlewareChain (st_Router moreState) = [1]
  /\ cell_middlewareChain (st_Router (snd (Invoke_state growProgram (call "ok" []) moreState)))
     = [1; 0].
Proof.
  split; [reflexivity|]. split; [reflexivity|]. split; [|split; reflexivity].
  intros Heq.
  assert (Hlate : cell_invokeMap
                    (st_Router (snd (Invoke_state growProgram (call "grow" []) growState)))
                    !! "late" = Some (NamedFunc 1)) by reflexivity.
  rewrite Heq in Hlate. discriminate Hlate.
Qed.

(** On the first Router the call of [ok] runs stages that leave the Router
    alone, and the call of an unknown name runs none. *)
Lemma Invoke_state_frame_witness :
  stages_keep st_Router growProgram
    (use_value (NamedFunc 1) (cell_middlewareChain (st_Router growState)))
  /\ st_Router (snd (Invoke_state growProgram (call "ok" []) growState)) = st_Router growState
  /\ st_Router (snd (Invoke_state growProgram (call "nothing" []) growState))
     = st_Router growState.
Proof.
  assert (Hkeep : stages_keep st_Router growProgram
                    (use_value (NamedFunc 1) (cell_middlewareChain (st_Router growState)))).
  { split.
    - intros next Hnext stub args st. apply Hnext.
    - intros stub args st. reflexivity. }
  split; [exact Hkeep|]. split.
  - exact (proj1 (proj2 (proj2 (Invoke_state_frame growProgram (call "ok" []) growState)
                           (NamedFunc 1) eq_refl)) Hkeep).
  - exact (proj1 (proj1 (Invoke_state_frame growProgram (call "nothing" []) growState)
                    eq_refl)).
Defined.

(** Reading a key the ledger does not hold: no bytes, which do not decode. *)
Lemma GetJSON_errors_witness :
  GetJSON "zz" 0 testLedger (@set_Heap boolRuntime [false] NewWorld)
  = (Some "invalid character",
     Logger_Error "error deserialising value of  as json: invalid character"
       (@set_Heap boolRuntime [false] NewWorld)).
Proof.
  exact (proj1 (proj2 (GetJSON_errors "zz" 0 testLedger
                         (@set_Heap boolRuntime [false] NewWorld)))
           EmptyString "invalid character" (@set_Heap boolRuntime [false] NewWorld)
           eq_refl eq_refl).
Defined.

(** The counting program is made of [okHandler] and [ArgCounter], so its
    dispatch is the dispatch on the store. *)
Lemma countProgram_store :
  store_program countProgram (fun _ => okHandler) (fun _ => ArgCounter ["a"]).
Proof.
  split.
  - reflexivity.
  - intros id next nextS Hnext stub args st.
    cbn [countProgram middlewareFunc]. unfold lift, ArgCounter. cbn [length].
    destruct (negb (length args =? 1)%nat); [reflexivity|].
    rewrite Hnext. reflexivity.
Qed.
